(** * AntidetectedDriver: the page scripts

    A shallow embedding of the two in-page scripts of the repository:

    - [src/scripts/links.js], the resource scanner [getAllPageResources];
    - the resource-timing collector that fills [window.loadedResources].

    JavaScript strings are modelled by [string] (code units below 256), the
    DOM by a tree of elements carrying the values the platform returns for the
    properties the scripts read (strings, [undefined], or objects known by
    their identity), and the scripts themselves by a small state-and-exception
    monad, so that [try]/[catch], the [TypeError] of a method call on a value
    that has no such method, mutation of the local array [resources] and reads
    of the document are all explicit. *)

From Stdlib Require Import List String Ascii Bool Arith Lia PrimFloat.
Import ListNotations.
Set Warnings "-register-all".
Local Open Scope string_scope.
Local Open Scope list_scope.

(** ** JavaScript values and strings *)

Module JS.

(** The values a DOM property read by the scripts can have: a string,
    [undefined] when the element has no such property, or an object, known
    by its identity [id]: the [href] of an SVG [image] element is an
    [SVGAnimatedString], the same object at each read of one element and a
    different one for each element. *)
Inductive jsval : Type :=
| JUndefined
| JString (s : string)
| JObject (id : nat).

Definition jsval_eq_dec (a b : jsval) : {a = b} + {a <> b}.
Proof. decide equality; [apply string_dec | apply Nat.eq_dec]. Defined.

(** Strict equality [a === b]: strings by their code units, objects by
    identity. *)
Definition strict_eq (a b : jsval) : bool :=
  if jsval_eq_dec a b then true else false.

(** ToBoolean: [undefined] and the empty string are falsy, every object is
    truthy. *)
Definition truthy (v : jsval) : bool :=
  match v with
  | JUndefined => false
  | JString "" => false
  | JString _ => true
  | JObject _ => true
  end.

(** [a || b] on values. *)
Definition or_else (a b : jsval) : jsval := if truthy a then a else b.

(** [s.includes(t)]. *)
Fixpoint includes (s t : string) : bool :=
  if String.prefix t s then true
  else match s with
       | EmptyString => false
       | String _ s' => includes s' t
       end.

(** *** The pattern [/url\(Q?(.*?)Q?\)/]

    Here [Q] stands for the character class of the source that holds the
    double and the single quote. [String.prototype.match] with a pattern
    without the [g] flag returns the leftmost match, found by backtracking;
    the scripts only read capture group 1, which is what [match_url]
    returns. *)

Definition dquote : ascii := "034"%char.
Definition squote : ascii := "039"%char.

Definition is_quote (c : ascii) : bool :=
  (Ascii.eqb c dquote || Ascii.eqb c squote)%bool.

(** [.] matches every code unit but the line terminators; of the four of
    them, line feed and carriage return are code units below 256. *)
Definition is_line_terminator (c : ascii) : bool :=
  (Ascii.eqb c "010" || Ascii.eqb c "013")%bool.

(** The end of the pattern, [Q?\)], tried at the front of [s]: the
    optional quote is greedy, and giving it up is tried next. *)
Definition closes (s : string) : bool :=
  match s with
  | String c s' =>
      if is_quote c
      then match s' with
           | String ")" _ => true
           | _ => false
           end
      else Ascii.eqb c ")"
  | EmptyString => false
  end.

(** [(.*?)Q?\)]: the group is lazy, so it grows one code unit at a time
    until the rest of the pattern matches. [acc] is the group so far. *)
Fixpoint lazy_group (acc s : string) : option string :=
  if closes s then Some acc
  else match s with
       | String c s' =>
           if is_line_terminator c then None
           else lazy_group (acc ++ String c EmptyString) s'
       | EmptyString => None
       end.

(** [Q?(.*?)Q?\)] after [url\(]: the optional opening quote is greedy,
    and the match without it is the fallback. *)
Definition after_open (s : string) : option string :=
  match s with
  | String c s' =>
      if is_quote c
      then match lazy_group "" s' with
           | Some g => Some g
           | None => lazy_group "" s
           end
      else lazy_group "" s
  | EmptyString => lazy_group "" s
  end.

(** The whole pattern anchored at the front of [s]. *)
Definition match_here (s : string) : option string :=
  match s with
  | String "u" (String "r" (String "l" (String "(" s'))) => after_open s'
  | _ => None
  end.

(** [s.match(/url\(Q?(.*?)Q?\)/)]: [None] is [null], [Some g] a match
    whose group 1 is [g]. *)
Fixpoint match_url (s : string) : option string :=
  match match_here s with
  | Some g => Some g
  | None => match s with
            | String _ s' => match_url s'
            | EmptyString => None
            end
  end.

(** Code units that end neither the group nor the match. *)
Definition plain_char (c : ascii) : bool :=
  negb (is_quote c || Ascii.eqb c ")" || is_line_terminator c).

Fixpoint all_chars (p : ascii -> bool) (s : string) : bool :=
  match s with
  | EmptyString => true
  | String c s' => p c && all_chars p s'
  end.

(** A quote, or nothing. *)
Definition quote_or_nothing (q : string) : Prop :=
  q = "" \/ exists c, is_quote c = true /\ q = String c "".

(** [url(...)] around [u] in double quotes, as computed styles are
    serialised. *)
Definition css_url (u : string) : string :=
  "url(" ++ String dquote (u ++ String dquote ")").

(** What the pattern captures in [url(body)] when [body] holds neither a
    closing parenthesis nor a line break: [body] less one quote at its
    front and one quote at its end. *)
Definition strip_open (body : string) : string :=
  match body with
  | String c body' => if is_quote c then body' else body
  | EmptyString => EmptyString
  end.

Fixpoint strip_close (body : string) : string :=
  match body with
  | EmptyString => EmptyString
  | String c body' =>
      match body' with
      | EmptyString => if is_quote c then EmptyString else String c EmptyString
      | String _ _ => String c (strip_close body')
      end
  end.

Definition unquote (body : string) : string := strip_close (strip_open body).

(** The string holds a closing parenthesis. *)
Fixpoint has_paren (s : string) : bool :=
  match s with
  | EmptyString => false
  | String c s' => Ascii.eqb c ")" || has_paren s'
  end.

(** Code units that the group of the pattern can hold. *)
Definition group_char (c : ascii) : bool :=
  negb (Ascii.eqb c ")" || is_line_terminator c).

(** The reading of the description: in a value of two [url(...)], the
    address of the first is captured. *)
Definition first_url_as_described : Prop :=
  forall first between second,
    has_paren first = false -> has_paren second = false ->
    match_url ("url(" ++ first ++ ")" ++ between ++ "url(" ++ second ++ ")") =
    Some (unquote first).

(** The values of a list in the order of their first occurrence. *)
Definition first_occurrences (l : list jsval) : list jsval :=
  rev (nodup jsval_eq_dec (rev l)).

End JS.
Import JS.

(** ** The document as the scripts see it *)

Module DOM.

(** [window.getComputedStyle(element)]: only [backgroundImage] is read. *)
Record ComputedStyle : Type := mkStyle {
  backgroundImage : string
}.

(** An element: its local name, the names of the content attributes it
    carries (what the selectors test), and the values of the properties the
    scanner reads from it. [rel] is a string on an [HTMLLinkElement]; a
    type selector takes elements of every namespace, and on a [link]
    element that is not an HTML one, such as one inside [svg], [rel] and
    [href] are [undefined]. *)
Record Element : Type := mkElement {
  localName : string;
  attributeNames : list string;
  src : jsval;
  href : jsval;
  poster : jsval;
  data : jsval;
  rel : jsval;
  computedStyle : ComputedStyle
}.

Inductive Node : Type :=
| Elem (e : Element) (children : list Node).

(** A rule of a style sheet; [rule.style.src] of a [CSSFontFaceRule]. *)
Inductive CSSRule : Type :=
| CSSFontFaceRule (style_src : string)
| CSSStyleRule.

(** A style sheet. Reading [cssRules] of a cross-origin sheet is denied by
    the platform; otherwise it gives the rule list ([None] stands for a
    falsy value, which the scanner replaces by the empty array). *)
Record CSSStyleSheet : Type := mkSheet {
  crossOrigin : bool;
  ruleList : option (list CSSRule)
}.

Record Document : Type := mkDocument {
  documentElement : Node;
  styleSheets : list CSSStyleSheet
}.

(** *** Selectors *)

(** A compound selector: a type selector or [*], and at most one attribute
    presence test, as in [link[href]]. *)
Record Compound : Type := mkCompound {
  sel_name : option string;
  sel_attr : option string
}.

(** A complex selector: a compound, or two of them joined by the descendant
    combinator, as in [video source[src]]. *)
Inductive Complex : Type :=
| Single (c : Compound)
| Descendant (ancestor c : Compound).

(** A selector list, as in [iframe[src], embed[src]]. *)
Definition Selector : Type := list Complex.

Definition matches_compound (c : Compound) (e : Element) : bool :=
  (match sel_name c with
   | Some n => String.eqb (localName e) n
   | None => true
   end)
  &&
  (match sel_attr c with
   | Some a => existsb (String.eqb a) (attributeNames e)
   | None => true
   end).

(** [ancestors] are the ancestors of [e], nearest first. *)
Definition matches_complex (x : Complex) (ancestors : list Element) (e : Element) : bool :=
  match x with
  | Single c => matches_compound c e
  | Descendant a c => matches_compound c e && existsb (matches_compound a) ancestors
  end.

Definition matches (sel : Selector) (ancestors : list Element) (e : Element) : bool :=
  existsb (fun x => matches_complex x ancestors e) sel.

(** The elements of a subtree in tree order, each with its ancestors. *)
Fixpoint descend (ancestors : list Element) (n : Node) : list (list Element * Element) :=
  match n with
  | Elem e children => (ancestors, e) :: flat_map (descend (e :: ancestors)) children
  end.

(** [document.querySelectorAll(sel)]: every matching element, once, in tree
    order. *)
Definition select (sel : Selector) (d : Document) : list Element :=
  map snd (filter (fun p => matches sel (fst p) (snd p)) (descend [] (documentElement d))).

Definition tag (n : string) : Compound := mkCompound (Some n) None.
Definition tag_with (n a : string) : Compound := mkCompound (Some n) (Some a).
Definition universal : Compound := mkCompound None None.

End DOM.
Import DOM.

(** ** The scanner, [src/scripts/links.js] *)

Module Scanner.

(** An entry of the array [resources]: the object [{ url, type }]. *)
Record Resource : Type := mkResource {
  url : jsval;
  type : string
}.

Inductive exn : Type :=
| SecurityError
| TypeError.

Inductive outcome (A : Type) : Type :=
| Normal (a : A)
| Throw (e : exn).
Arguments Normal {A} a.
Arguments Throw {A} e.

(** What a call of [getAllPageResources] can see and change: the document of
    the page, and the array bound to its local [resources]. *)
Record Store : Type := mkStore {
  document : Document;
  resources : list Resource
}.

(** A piece of script: it ends normally or by a throw, in a new store. *)
Definition Script (A : Type) : Type := Store -> outcome A * Store.

Definition ret {A} (a : A) : Script A := fun s => (Normal a, s).

Definition bind {A B} (m : Script A) (k : A -> Script B) : Script B :=
  fun s => match m s with
           | (Normal a, s') => k a s'
           | (Throw e, s') => (Throw e, s')
           end.

Definition throw {A} (e : exn) : Script A := fun s => (Throw e, s).

(** [try { body } catch (e) { handler }]: what [body] did to the store
    before it threw stays done. *)
Definition try_catch {A} (body : Script A) (handler : exn -> Script A) : Script A :=
  fun s => match body s with
           | (Normal a, s') => (Normal a, s')
           | (Throw e, s') => handler e s'
           end.

Declare Scope script_scope.
Delimit Scope script_scope with script.
Notation "x <- m ;; k" := (bind m (fun x => k))
  (at level 61, m at next level, right associativity) : script_scope.
Notation "m ;; k" := (bind m (fun _ => k))
  (at level 61, right associativity) : script_scope.
Local Open Scope script_scope.

(** [array.forEach(f)]: a throw of [f] ends the loop. *)
Fixpoint forEach {A} (l : list A) (f : A -> Script unit) : Script unit :=
  match l with
  | [] => ret tt
  | a :: l' => f a ;; forEach l' f
  end.

(** *** Primitives *)

Definition get_resources : Script (list Resource) :=
  fun s => (Normal (resources s), s).

Definition set_resources (rs : list Resource) : Script unit :=
  fun s => (Normal tt, mkStore (document s) rs).

(** [resources.push(r)]. *)
Definition push (r : Resource) : Script unit :=
  fun s => (Normal tt, mkStore (document s) (resources s ++ [r])).

(** [document.querySelectorAll(sel)]. *)
Definition querySelectorAll (sel : Selector) : Script (list Element) :=
  fun s => (Normal (select sel (document s)), s).

(** [window.getComputedStyle(element)]. *)
Definition getComputedStyle (e : Element) : Script ComputedStyle :=
  fun s => (Normal (computedStyle e), s).

(** [Array.from(document.styleSheets)]. *)
Definition get_styleSheets : Script (list CSSStyleSheet) :=
  fun s => (Normal (styleSheets (document s)), s).

(** [sheet.cssRules]: throws on a cross-origin sheet. *)
Definition cssRules (sheet : CSSStyleSheet) : Script (option (list CSSRule)) :=
  if crossOrigin sheet then throw SecurityError else ret (ruleList sheet).

(** *** [addResource] *)

(** [resources.some(res => res.url === url)]. *)
Definition some_url (u : jsval) (rs : list Resource) : bool :=
  existsb (fun res => strict_eq (url res) u) rs.

Definition addResource (u : jsval) (t : string) : Script unit :=
  rs <- get_resources ;;
  if negb (truthy u) || some_url u rs then ret tt
  else push (mkResource u t).

(** [m && m[1]] for the result [m] of [match]. *)
Definition group1 (m : option string) : option string :=
  match m with
  | Some g => if truthy (JString g) then Some g else None
  | None => None
  end.

(** *** The nine sweeps, in the order of the source *)

(** An expression that ends normally or throws, without touching the
    store. *)
Definition lift {A} (o : outcome A) : Script A := fun s => (o, s).

(** [r.includes('stylesheet') ? 'css' : r || 'link'] for a string [r]: the
    conditional of the source binds looser than [||]. *)
Definition link_type_of (r : string) : string :=
  if includes r "stylesheet" then "css"
  else if truthy (JString r) then r else "link".

(** The type given to a link. [link.rel.includes(...)] is a method call on
    [link.rel]: on [undefined], and on an object, which has no such method,
    it throws a [TypeError]. *)
Definition link_type (link : Element) : outcome string :=
  match rel link with
  | JString r => Normal (link_type_of r)
  | JUndefined => Throw TypeError
  | JObject _ => Throw TypeError
  end.

(** The callbacks of the nine loops, named after their parameters. *)

Definition for_link (link : Element) : Script unit :=
  type <- lift (link_type link) ;;
  addResource (href link) type.

Definition for_script (script : Element) : Script unit :=
  addResource (src script) "js".

Definition for_img (img : Element) : Script unit :=
  addResource (or_else (src img) (href img)) "image".

Definition for_video (video : Element) : Script unit :=
  (if truthy (src video) then addResource (src video) "video" else ret tt) ;;
  (if truthy (poster video) then addResource (poster video) "video_poster" else ret tt).

Definition for_audio (audio : Element) : Script unit :=
  addResource (src audio) "audio".

Definition for_element (element : Element) : Script unit :=
  style <- getComputedStyle element ;;
  match group1 (match_url (backgroundImage style)) with
  | Some g => addResource (JString g) "css_background_image"
  | None => ret tt
  end.

Definition for_frame (frame : Element) : Script unit :=
  addResource (src frame) "embedded_content".

Definition for_obj (obj : Element) : Script unit :=
  addResource (data obj) "object_data".

Definition for_rule (rule : CSSRule) : Script unit :=
  match rule with
  | CSSFontFaceRule style_src =>
      match group1 (match_url style_src) with
      | Some g => addResource (JString g) "font"
      | None => ret tt
      end
  | CSSStyleRule => ret tt
  end.

(** The [try] encloses the read of [cssRules] and the loop over the rules;
    the [catch] is empty. *)
Definition for_sheet (sheet : CSSStyleSheet) : Script unit :=
  try_catch
    (rules <- cssRules sheet ;;
     forEach (match rules with Some l => l | None => [] end) for_rule)
    (fun _ => ret tt).

(** The selectors of the source. *)
Definition sel_links : Selector := [Single (tag_with "link" "href")].
Definition sel_scripts : Selector := [Single (tag_with "script" "src")].
Definition sel_images : Selector :=
  [Single (tag_with "img" "src"); Single (tag_with "source" "src");
   Single (tag_with "image" "href")].
Definition sel_video : Selector :=
  [Descendant (tag "video") (tag_with "source" "src"); Single (tag_with "video" "poster")].
Definition sel_audio : Selector := [Descendant (tag "audio") (tag_with "source" "src")].
Definition sel_all : Selector := [Single universal].
Definition sel_frames : Selector :=
  [Single (tag_with "iframe" "src"); Single (tag_with "embed" "src")].
Definition sel_objects : Selector := [Single (tag_with "object" "data")].

Definition sweep_links : Script unit :=
  links <- querySelectorAll sel_links ;; forEach links for_link.

Definition sweep_scripts : Script unit :=
  scripts <- querySelectorAll sel_scripts ;; forEach scripts for_script.

Definition sweep_images : Script unit :=
  imgs <- querySelectorAll sel_images ;; forEach imgs for_img.

Definition sweep_video : Script unit :=
  videos <- querySelectorAll sel_video ;; forEach videos for_video.

Definition sweep_audio : Script unit :=
  audios <- querySelectorAll sel_audio ;; forEach audios for_audio.

Definition sweep_backgrounds : Script unit :=
  elements <- querySelectorAll sel_all ;; forEach elements for_element.

Definition sweep_frames : Script unit :=
  frames <- querySelectorAll sel_frames ;; forEach frames for_frame.

Definition sweep_objects : Script unit :=
  objs <- querySelectorAll sel_objects ;; forEach objs for_obj.

Definition sweep_fonts : Script unit :=
  sheets <- get_styleSheets ;; forEach sheets for_sheet.

(** The sweeps in their fixed order. *)
Definition sweeps : list (Script unit) :=
  [sweep_links; sweep_scripts; sweep_images; sweep_video; sweep_audio;
   sweep_backgrounds; sweep_frames; sweep_objects; sweep_fonts].

(** [getAllPageResources()]: a fresh array, the nine sweeps, the array. *)
Definition getAllPageResources : Script (list Resource) :=
  set_resources [] ;;
  sweep_links ;;
  sweep_scripts ;;
  sweep_images ;;
  sweep_video ;;
  sweep_audio ;;
  sweep_backgrounds ;;
  sweep_frames ;;
  sweep_objects ;;
  sweep_fonts ;;
  get_resources.

(** [scan()] on a page whose document is [d]. *)
Definition scan (d : Document) : outcome (list Resource) :=
  fst (getAllPageResources (mkStore d [])).

(** *** Notions used to state the properties *)

(** The array a sweep leaves when it runs alone on a page, from a fresh
    array. *)
Definition alone (sweep : Script unit) (d : Document) : list Resource :=
  resources (snd (sweep (mkStore d []))).

(** The sweep classifies the address [u] in the document [d]. *)
Definition finds (sweep : Script unit) (d : Document) (u : jsval) : Prop :=
  In u (map url (alone sweep d)).

(** The document without the sheets whose rules the platform denies. *)
Definition without_denied (d : Document) : Document :=
  mkDocument (documentElement d) (filter (fun sheet => negb (crossOrigin sheet)) (styleSheets d)).

(** The kinds of the interface description. *)
Definition described_kinds : list string :=
  ["stylesheet"; "script"; "image"; "video"; "video-poster"; "audio";
   "css-background-image"; "embedded-content"; "object-data"; "font"].

(** A record whose type is one of the described kinds, or the raw relation
    of the link it comes from. *)
Definition kind_as_described (d : Document) (r : Resource) : Prop :=
  In (type r) described_kinds \/
  exists link, In link (select sel_links d) /\ href link = url r /\
               rel link = JString (type r).

(** The reading of the interface description: every record of the scan has
    a described kind, and the record of a style sheet link has the kind
    [stylesheet]. *)
Definition kinds_as_described (d : Document) : Prop :=
  forall rs, scan d = Normal rs ->
    (forall r, In r rs -> kind_as_described d r) /\
    (forall r link, In r rs -> In link (select sel_links d) ->
                    rel link = JString "stylesheet" -> href link = url r ->
                    type r = "stylesheet").

(** The types the source writes. *)
Definition written_types : list string :=
  ["css"; "js"; "image"; "video"; "video_poster"; "audio";
   "css_background_image"; "embedded_content"; "object_data"; "font"; "link"].

(** A candidate handed to [addResource]. *)
Definition Candidate : Type := (jsval * string)%type.

(** What [addResource] does to the array. *)
Definition insert (rs : list Resource) (c : Candidate) : list Resource :=
  if negb (truthy (fst c)) || some_url (fst c) rs then rs
  else rs ++ [mkResource (fst c) (snd c)].

(** The array built from the candidates [cs], from a fresh array. *)
Definition inventory (cs : list Candidate) : list Resource :=
  fold_left insert cs [].

(** The type of the first candidate for [u]. *)
Fixpoint first_type (u : jsval) (cs : list Candidate) : option string :=
  match cs with
  | [] => None
  | c :: cs' => if strict_eq (fst c) u then Some (snd c) else first_type u cs'
  end.

(** The candidates of each callback. *)
Definition link_candidates (link : Element) : list Candidate :=
  match link_type link with
  | Normal t => [(href link, t)]
  | Throw _ => []
  end.
Definition script_candidates (script : Element) : list Candidate :=
  [(src script, "js")].
Definition img_candidates (img : Element) : list Candidate :=
  [(or_else (src img) (href img), "image")].
Definition video_candidates (video : Element) : list Candidate :=
  (if truthy (src video) then [(src video, "video")] else []) ++
  (if truthy (poster video) then [(poster video, "video_poster")] else []).
Definition audio_candidates (audio : Element) : list Candidate :=
  [(src audio, "audio")].
Definition element_candidates (element : Element) : list Candidate :=
  match group1 (match_url (backgroundImage (computedStyle element))) with
  | Some g => [(JString g, "css_background_image")]
  | None => []
  end.
Definition frame_candidates (frame : Element) : list Candidate :=
  [(src frame, "embedded_content")].
Definition obj_candidates (obj : Element) : list Candidate :=
  [(data obj, "object_data")].
Definition rule_candidates (rule : CSSRule) : list Candidate :=
  match rule with
  | CSSFontFaceRule style_src =>
      match group1 (match_url style_src) with
      | Some g => [(JString g, "font")]
      | None => []
      end
  | CSSStyleRule => []
  end.
Definition sheet_candidates (sheet : CSSStyleSheet) : list Candidate :=
  if crossOrigin sheet then []
  else flat_map rule_candidates (match ruleList sheet with Some l => l | None => [] end).

(** The candidates of the nine sweeps, sweep by sweep. *)
Definition candidates (d : Document) : list (list Candidate) :=
  [flat_map link_candidates (select sel_links d);
   flat_map script_candidates (select sel_scripts d);
   flat_map img_candidates (select sel_images d);
   flat_map video_candidates (select sel_video d);
   flat_map audio_candidates (select sel_audio d);
   flat_map element_candidates (select sel_all d);
   flat_map frame_candidates (select sel_frames d);
   flat_map obj_candidates (select sel_objects d);
   flat_map sheet_candidates (styleSheets d)].

(** The array after the first eight sweeps, which read no style sheet. *)
Definition before_fonts (d : Document) : list Resource :=
  inventory (List.concat (firstn 8 (candidates d))).

(** A piece of script that never throws, leaves the document alone and
    hands the candidates [cs] to [addResource], in this order. *)
Definition adds (d : Document) (m : Script unit) (cs : list Candidate) : Prop :=
  forall rs, m (mkStore d rs) = (Normal tt, mkStore d (fold_left insert cs rs)).

(** Every [link[href]] element of the document has a string for [rel], as
    the HTML ones have. *)
Definition html_links (d : Document) : Prop :=
  forall link, In link (select sel_links d) -> exists r, rel link = JString r.

(** The reading of the description: a denied sheet never makes the scan
    throw. *)
Definition denial_as_described (d : Document) : Prop :=
  (exists sheet, In sheet (styleSheets d) /\ crossOrigin sheet = true) ->
  exists rs, scan d = Normal rs.

(** The reading of the description: an element without address never makes
    the scan end in an error. *)
Definition absent_as_described (d : Document) : Prop :=
  (exists e, In e (select sel_links d) /\ truthy (href e) = false) ->
  exists rs, scan d = Normal rs.

(** The array after the first [k] sweeps of a call. *)
Definition after_sweeps (k : nat) (d : Document) : list Resource :=
  resources (snd (forEach (firstn k sweeps) (fun sweep => sweep) (mkStore d []))).

(** Where the scanner takes an address [u] and its type [t] from: the nine
    loops of the source, callback by callback. *)
Definition origin (d : Document) (u : jsval) (t : string) : Prop :=
  (exists link, In link (select sel_links d) /\ u = href link /\
                link_type link = Normal t) \/
  (exists script, In script (select sel_scripts d) /\ u = src script /\ t = "js") \/
  (exists img, In img (select sel_images d) /\
               u = or_else (src img) (href img) /\ t = "image") \/
  (exists video, In video (select sel_video d) /\
                 ((u = src video /\ t = "video") \/
                  (u = poster video /\ t = "video_poster"))) \/
  (exists audio, In audio (select sel_audio d) /\ u = src audio /\ t = "audio") \/
  (exists element g, In element (select sel_all d) /\
                     match_url (backgroundImage (computedStyle element)) = Some g /\
                     u = JString g /\ t = "css_background_image") \/
  (exists frame, In frame (select sel_frames d) /\ u = src frame /\
                 t = "embedded_content") \/
  (exists obj, In obj (select sel_objects d) /\ u = data obj /\ t = "object_data") \/
  (exists sheet rules style_src g,
      In sheet (styleSheets d) /\ crossOrigin sheet = false /\
      ruleList sheet = Some rules /\ In (CSSFontFaceRule style_src) rules /\
      match_url style_src = Some g /\ u = JString g /\ t = "font").

(** The document with, in each sheet, the [@font-face] rules only. *)
Definition is_font_face (rule : CSSRule) : bool :=
  match rule with
  | CSSFontFaceRule _ => true
  | CSSStyleRule => false
  end.

Definition font_faces_only (d : Document) : Document :=
  mkDocument (documentElement d)
    (map (fun sheet => mkSheet (crossOrigin sheet)
                         (Some (filter is_font_face
                                  (match ruleList sheet with Some l => l | None => [] end))))
         (styleSheets d)).

End Scanner.
Import Scanner.

(** ** The timing collector, the script that fills [window.loadedResources] *)

Module Collector.

(** The values stored in the objects the collector builds. *)
Inductive value : Type :=
| VUndefined
| VString (s : string)
| VNumber (x : float).

(** An object literal: its own properties, in the order they are written. *)
Definition Object : Type := list (string * value).

Definition get (o : Object) (key : string) : value :=
  match find (fun kv => String.eqb (fst kv) key) o with
  | Some kv => snd kv
  | None => VUndefined
  end.

Definition keys (o : Object) : list string := map fst o.

(** A [PerformanceResourceTiming] entry of the platform. [transferSize] is
    [None] on a platform that does not expose it: reading it gives
    [undefined]. *)
Record PerformanceEntry : Type := mkEntry {
  name : string;
  initiatorType : string;
  duration : float;
  transferSize : option float;
  startTime : float
}.

Definition number_or_undefined (x : option float) : value :=
  match x with
  | Some n => VNumber n
  | None => VUndefined
  end.

(** The object pushed for an entry of [initialResources]. *)
Definition initial_record (resource : PerformanceEntry) : Object :=
  [("name", VString (name resource));
   ("type", VString (initiatorType resource));
   ("duration", VNumber (duration resource));
   ("size", number_or_undefined (transferSize resource));
   ("startTime", VNumber (startTime resource))].

(** The object pushed for an entry delivered to the observer. *)
Definition observed_record (entry : PerformanceEntry) : Object :=
  [("name", VString (name entry));
   ("type", VString (initiatorType entry));
   ("duration", VNumber (duration entry));
   ("size", number_or_undefined (transferSize entry));
   ("startTime", VNumber (startTime entry))].

(** [entries.forEach(e => window.loadedResources.push(record(e)))]. *)
Definition push_each (record : PerformanceEntry -> Object)
    (entries : list PerformanceEntry) (loadedResources : list Object) : list Object :=
  fold_left (fun loaded e => loaded ++ [record e]) entries loadedResources.

(** The top of the script: [window.loadedResources = []], then the entries
    [performance.getEntriesByType('resource')] has buffered. *)
Definition initialize (initialResources : list PerformanceEntry) : list Object :=
  push_each initial_record initialResources [].

(** The callback of the [PerformanceObserver], run on [list.getEntries()]. *)
Definition observer (entries : list PerformanceEntry) (loadedResources : list Object) : list Object :=
  push_each observed_record entries loadedResources.

(** [window.loadedResources] after the script has run and the platform has
    made the deliveries [batches], oldest first. *)
Definition loaded (initialResources : list PerformanceEntry)
    (batches : list (list PerformanceEntry)) : list Object :=
  fold_left (fun loadedResources batch => observer batch loadedResources)
            batches (initialize initialResources).

(** What the interface description asks of a value. *)
Definition is_string (v : value) : Prop := exists s, v = VString s.

Definition nonneg (x : float) : Prop := PrimFloat.leb 0 x = true.

Definition is_nonneg_number (v : value) : Prop := exists x, v = VNumber x /\ nonneg x.

Definition is_nonneg_number_or_absent (v : value) : Prop :=
  v = VUndefined \/ is_nonneg_number v.

(** An entry as the platform reports it: no negative number. *)
Definition well_formed (e : PerformanceEntry) : Prop :=
  nonneg (duration e) /\ nonneg (startTime e) /\
  match transferSize e with
  | Some n => nonneg n
  | None => True
  end.

(** The fields of the interface description, and those the source writes. *)
Definition described_fields : list string :=
  ["name"; "initiatorType"; "duration"; "transferSize"; "startTime"].

Definition written_fields : list string :=
  ["name"; "type"; "duration"; "size"; "startTime"].

(** The reading of the interface description: the object has exactly the
    described fields, each copied from the field of the same name. *)
Definition record_as_described (e : PerformanceEntry) (o : Object) : Prop :=
  keys o = described_fields /\
  get o "name" = VString (name e) /\
  get o "initiatorType" = VString (initiatorType e) /\
  get o "duration" = VNumber (duration e) /\
  get o "transferSize" = number_or_undefined (transferSize e) /\
  get o "startTime" = VNumber (startTime e).

End Collector.

(** ** Sample pages *)

Module Samples.

Definition no_style : ComputedStyle := mkStyle "none".

(** An element with no attribute: none of the properties read by the
    scanner is set. *)
Definition plain (n : string) : Element :=
  mkElement n [] JUndefined JUndefined JUndefined JUndefined JUndefined no_style.

(** [<link rel=r href=h>], with [h] as the platform resolves it. *)
Definition link (r h : string) : Element :=
  mkElement "link" ["rel"; "href"] JUndefined (JString h) JUndefined JUndefined
            (JString r) no_style.

(** [<link href=...>] inside [<svg>]: not an HTML link, so neither [rel]
    nor [href] is a property of it. *)
Definition svg_link : Element :=
  mkElement "link" ["href"] JUndefined JUndefined JUndefined JUndefined JUndefined no_style.

(** [<image href=...>] inside [<svg>]: [href] is the object [id]. *)
Definition svg_image (id : nat) : Element :=
  mkElement "image" ["href"] JUndefined (JObject id) JUndefined JUndefined JUndefined
            no_style.

(** [<script src=u>]. *)
Definition script (u : string) : Element :=
  mkElement "script" ["src"] (JString u) JUndefined JUndefined JUndefined JUndefined no_style.

(** [<img src=u>]. *)
Definition img (u : string) : Element :=
  mkElement "img" ["src"] (JString u) JUndefined JUndefined JUndefined JUndefined no_style.

(** [<source src=u>]. *)
Definition source (u : string) : Element :=
  mkElement "source" ["src"] (JString u) JUndefined JUndefined JUndefined JUndefined no_style.

(** [<video>] and [<audio>] without attributes: [src] is the empty string. *)
Definition video : Element :=
  mkElement "video" [] (JString "") JUndefined (JString "") JUndefined JUndefined no_style.
Definition audio : Element :=
  mkElement "audio" [] (JString "") JUndefined JUndefined JUndefined JUndefined no_style.

(** [<div>] whose computed [background-image] is [bg]. *)
Definition div (bg : string) : Element :=
  mkElement "div" [] JUndefined JUndefined JUndefined JUndefined JUndefined (mkStyle bg).

Definition leaf (e : Element) : Node := Elem e [].

(** [<html><head>...</head><body>...</body></html>]. *)
Definition html (head body : list Node) : Node :=
  Elem (plain "html") [Elem (plain "head") head; Elem (plain "body") body].

(** A style sheet link and an image with the same address. *)
Definition collision : Document :=
  mkDocument (html [leaf (link "stylesheet" "https://example.com/a.css")]
                   [leaf (img "https://example.com/a.css")])
             [].

(** A page with a script, a [link] element inside [svg] and a cross-origin
    sheet. *)
Definition svg_link_page : Document :=
  mkDocument (html [leaf (script "https://example.com/app.js")]
                   [Elem (plain "svg") [leaf svg_link]])
             [mkSheet true (Some [CSSFontFaceRule "url(b.woff2)"])].

(** Two [image] elements inside [svg] that refer to the same picture. *)
Definition svg_images : Document :=
  mkDocument (html [] [Elem (plain "svg") [leaf (svg_image 1); leaf (svg_image 2)]]) [].

(** Two layers; a line feed stands inside the first address. *)
Definition broken_layers : string :=
  "url(a" ++ String "010" ("b.png), url(d.png)").

(** A page without links, scripts or media. *)
Definition bare : Document := mkDocument (html [] []) [].

(** A video and an audio element with a [source] child each. *)
Definition media : Document :=
  mkDocument (html []
                [Elem video [leaf (source "https://example.com/clip.mp4")];
                 Elem audio [leaf (source "https://example.com/song.ogg")]])
             [].

(** Two sheets with one [@font-face] rule each; the second is cross-origin. *)
Definition own_sheet : CSSStyleSheet :=
  mkSheet false (Some [CSSFontFaceRule (css_url "https://example.com/a.woff2")]).
Definition foreign_sheet : CSSStyleSheet :=
  mkSheet true (Some [CSSFontFaceRule (css_url "https://cdn.example.net/b.woff2")]).
Definition two_fonts : Document :=
  mkDocument (html [leaf (script "https://example.com/app.js")] [])
             [own_sheet; foreign_sheet].

(** [<video src=u>], without poster attribute. *)
Definition video_src (u : string) : Element :=
  mkElement "video" ["src"] (JString u) JUndefined (JString "") JUndefined JUndefined
            no_style.

(** A page whose only reference is the [src] of a video element. *)
Definition bare_video : Document :=
  mkDocument (html [] [leaf (video_src "https://example.com/clip.mp4")]) [].

(** A style sheet fetched in 12.5 ms, and an opaque image. *)
Definition entry : Collector.PerformanceEntry :=
  Collector.mkEntry "https://example.com/a.css" "link" 12.5%float (Some 2048%float) 30%float.
Definition opaque_entry : Collector.PerformanceEntry :=
  Collector.mkEntry "https://cdn.example.net/p.png" "img" 48.25%float (Some 0%float) 95.5%float.

End Samples.

(** * Properties *)

(** ** Sanity checks *)

Example match_url_double_quoted :
  match_url (css_url "https://cdn.example.com/bg.png") = Some "https://cdn.example.com/bg.png".
Proof. reflexivity. Qed.

Example match_url_none : match_url "none" = None.
Proof. reflexivity. Qed.

Example match_url_layers :
  match_url "linear-gradient(red, blue), url('a.png'), url(b.png)" = Some "a.png".
Proof. reflexivity. Qed.

Example match_url_empty_group : match_url (css_url "") = Some "".
Proof. reflexivity. Qed.

Example includes_alternate :
  includes "alternate stylesheet" "stylesheet" = true /\ includes "icon" "stylesheet" = false.
Proof. split; reflexivity. Qed.

Example scan_collision :
  scan Samples.collision = Normal [mkResource (JString "https://example.com/a.css") "css"].
Proof. reflexivity. Qed.

Example scan_bare : scan Samples.bare = Normal [].
Proof. reflexivity. Qed.

Example scan_media :
  scan Samples.media =
  Normal [mkResource (JString "https://example.com/clip.mp4") "image";
          mkResource (JString "https://example.com/song.ogg") "image"].
Proof. reflexivity. Qed.

Example scan_two_fonts :
  scan Samples.two_fonts =
  Normal [mkResource (JString "https://example.com/app.js") "js";
          mkResource (JString "https://example.com/a.woff2") "font"].
Proof. reflexivity. Qed.

(** A [link] element that is not an HTML one ends the call in a
    [TypeError]. *)
Example scan_svg_link_page : scan Samples.svg_link_page = Throw TypeError.
Proof. reflexivity. Qed.

(** Each [image] element inside [svg] gives a record of its own. *)
Example scan_svg_images :
  scan Samples.svg_images = Normal [mkResource (JObject 1) "image"; mkResource (JObject 2) "image"].
Proof. reflexivity. Qed.

Example match_url_broken_layers : match_url Samples.broken_layers = Some "d.png".
Proof. reflexivity. Qed.

(** ** Strings and the pattern *)

Lemma strict_eq_true (a b : jsval) : strict_eq a b = true <-> a = b.
Proof.
  unfold strict_eq. destruct (jsval_eq_dec a b); split; intros; congruence.
Qed.

Lemma strict_eq_refl (a : jsval) : strict_eq a a = true.
Proof. now apply strict_eq_true. Qed.

Lemma truthy_string (s : string) : truthy (JString s) = true <-> s <> "".
Proof.
  destruct s; simpl; split; intros; congruence.
Qed.

Lemma group1_some (m : option string) (g : string) :
  group1 m = Some g <-> m = Some g /\ g <> "".
Proof.
  unfold group1. destruct m as [g'|].
  - destruct (truthy (JString g')) eqn:T; split.
    + intros [= ->]. split; [reflexivity | now apply truthy_string].
    + now intros [[= ->] _].
    + discriminate.
    + intros [[= ->] N]. apply truthy_string in N. congruence.
  - split; [discriminate | now intros [? _]].
Qed.

(** ** The monad *)

Section Adds.

Variable d : Document.

Lemma adds_ret : adds d (ret tt) [].
Proof. intros rs. reflexivity. Qed.

Lemma adds_addResource (u : jsval) (t : string) : adds d (addResource u t) [(u, t)].
Proof.
  intros rs. unfold addResource, bind, get_resources, insert. simpl.
  destruct (negb (truthy u) || some_url u rs); reflexivity.
Qed.

Lemma adds_seq (m1 m2 : Script unit) (c1 c2 : list Candidate) :
  adds d m1 c1 -> adds d m2 c2 -> adds d (m1 ;; m2)%script (c1 ++ c2).
Proof.
  intros H1 H2 rs. unfold bind. rewrite H1, H2, fold_left_app. reflexivity.
Qed.

Lemma adds_forEach {A} (l : list A) (f : A -> Script unit) (c : A -> list Candidate) :
  (forall a, In a l -> adds d (f a) (c a)) -> adds d (forEach l f) (flat_map c l).
Proof.
  induction l as [|a l IH]; intros H; simpl.
  - apply adds_ret.
  - apply adds_seq.
    + apply H. now left.
    + apply IH. intros b Hb. apply H. now right.
Qed.

Lemma adds_select (sel : Selector) (k : list Element -> Script unit) (cs : list Candidate) :
  adds d (k (select sel d)) cs -> adds d (els <- querySelectorAll sel ;; k els)%script cs.
Proof. intros H rs. unfold bind, querySelectorAll. simpl. apply H. Qed.

Lemma adds_if (b : bool) (m : Script unit) (cs : list Candidate) :
  adds d m cs -> adds d (if b then m else ret tt) (if b then cs else []).
Proof. destruct b; [auto | intros _; apply adds_ret]. Qed.

Lemma adds_for_link link r :
  rel link = JString r -> adds d (for_link link) (link_candidates link).
Proof.
  intros E rs. unfold for_link, link_candidates, link_type, bind, lift. rewrite E.
  apply adds_addResource.
Qed.

Lemma adds_for_script script : adds d (for_script script) (script_candidates script).
Proof. apply adds_addResource. Qed.

Lemma adds_for_img img : adds d (for_img img) (img_candidates img).
Proof. apply adds_addResource. Qed.

Lemma adds_for_video video : adds d (for_video video) (video_candidates video).
Proof. apply adds_seq; apply adds_if, adds_addResource. Qed.

Lemma adds_for_audio audio : adds d (for_audio audio) (audio_candidates audio).
Proof. apply adds_addResource. Qed.

Lemma adds_for_element element : adds d (for_element element) (element_candidates element).
Proof.
  intros rs. unfold for_element, element_candidates, bind, getComputedStyle. simpl.
  destruct (group1 _); [apply adds_addResource | reflexivity].
Qed.

Lemma adds_for_frame frame : adds d (for_frame frame) (frame_candidates frame).
Proof. apply adds_addResource. Qed.

Lemma adds_for_obj obj : adds d (for_obj obj) (obj_candidates obj).
Proof. apply adds_addResource. Qed.

Lemma adds_for_rule rule : adds d (for_rule rule) (rule_candidates rule).
Proof.
  destruct rule as [style_src|]; simpl.
  - destruct (group1 _); [apply adds_addResource | apply adds_ret].
  - apply adds_ret.
Qed.

(** A denied sheet throws at the read of [cssRules], before anything is
    added, and the empty [catch] swallows the throw. *)
Lemma adds_for_sheet sheet : adds d (for_sheet sheet) (sheet_candidates sheet).
Proof.
  intros rs. unfold for_sheet, sheet_candidates, try_catch, bind, cssRules.
  destruct (crossOrigin sheet); simpl.
  - reflexivity.
  - rewrite (adds_forEach _ for_rule rule_candidates).
    + reflexivity.
    + intros rule _. apply adds_for_rule.
Qed.

End Adds.

Create HintDb sweeps.

#[local] Hint Resolve adds_for_script adds_for_img adds_for_video
  adds_for_audio adds_for_element adds_for_frame adds_for_obj adds_for_sheet : sweeps.

Ltac sweep_adds :=
  apply adds_select, adds_forEach; intros; auto with sweeps.

(** *** The link loop, which can throw *)

Lemma link_type_cases_rel (link : Element) :
  (exists r, rel link = JString r /\ link_type link = Normal (link_type_of r)) \/
  ((~ exists r, rel link = JString r) /\ link_type link = Throw TypeError).
Proof.
  unfold link_type. destruct (rel link) as [|r|id].
  - right. split; [intros [r E]; discriminate E | reflexivity].
  - left. eauto.
  - right. split; [intros [r E]; discriminate E | reflexivity].
Qed.

Lemma html_links_Forall (d : Document) :
  html_links d <-> Forall (fun link => exists r, rel link = JString r) (select sel_links d).
Proof. unfold html_links. now rewrite Forall_forall. Qed.

(** The loop over the links either hands on the candidates of all of them,
    or throws at the first link whose [rel] is not a string, with the
    candidates of the links before it handed on. *)
Lemma links_loop (d : Document) (l : list Element) (rs : list Resource) :
  (Forall (fun link => exists r, rel link = JString r) l /\
   forEach l for_link (mkStore d rs) =
   (Normal tt, mkStore d (fold_left insert (flat_map link_candidates l) rs))) \/
  (~ Forall (fun link => exists r, rel link = JString r) l /\
   exists cs,
     forEach l for_link (mkStore d rs) =
     (Throw TypeError, mkStore d (fold_left insert cs rs))).
Proof.
  revert rs. induction l as [|link l IH]; intros rs.
  - left. split; [constructor | reflexivity].
  - destruct (link_type_cases_rel link) as [(r & E & T) | (N & T)].
    + assert (link_candidates link = [(href link, link_type_of r)]) as LC
        by (unfold link_candidates; now rewrite T).
      assert (forEach (link :: l) for_link (mkStore d rs) =
              forEach l for_link (mkStore d (insert rs (href link, link_type_of r))))
        as Step.
      { cbn [forEach]. unfold bind. rewrite (adds_for_link d link r E rs), LC.
        reflexivity. }
      rewrite Step. cbn [flat_map]. rewrite LC. cbn [app fold_left].
      destruct (IH (insert rs (href link, link_type_of r))) as [[F Q] | [F (cs & Q)]].
      * left. split; [constructor; eauto | exact Q].
      * right. split; [intros H; inversion H; contradiction |].
        exists ((href link, link_type_of r) :: cs). exact Q.
    + assert (forEach (link :: l) for_link (mkStore d rs) =
              (Throw TypeError, mkStore d rs)) as Step.
      { cbn [forEach]. unfold bind, for_link, lift. rewrite T. reflexivity. }
      right. split; [intros H; inversion H; contradiction |].
      exists []. exact Step.
Qed.

Lemma sweep_links_cases (d : Document) (rs : list Resource) :
  (html_links d /\
   sweep_links (mkStore d rs) =
   (Normal tt,
    mkStore d (fold_left insert (flat_map link_candidates (select sel_links d)) rs))) \/
  (~ html_links d /\
   exists cs, sweep_links (mkStore d rs) = (Throw TypeError, mkStore d (fold_left insert cs rs))).
Proof.
  rewrite html_links_Forall. unfold sweep_links, bind, querySelectorAll. cbn [document].
  apply links_loop.
Qed.

Lemma html_links_dec (d : Document) : html_links d \/ ~ html_links d.
Proof. destruct (sweep_links_cases d []) as [[H _] | [H _]]; auto. Qed.

Lemma adds_sweep_links (d : Document) :
  html_links d -> adds d sweep_links (flat_map link_candidates (select sel_links d)).
Proof.
  intros H. apply adds_select, adds_forEach. intros link Hin.
  destruct (H link Hin) as [r E]. apply (adds_for_link d link r E).
Qed.

(** The eight sweeps after the links hand their candidates to
    [addResource], whatever the document. *)
Lemma later_sweeps_candidates (d : Document) :
  Forall2 (adds d) (tl sweeps) (tl (candidates d)).
Proof.
  unfold sweeps, candidates. cbn [tl].
  repeat (apply Forall2_cons; [sweep_adds |]).
  apply Forall2_cons; [| constructor].
  intros rs. unfold sweep_fonts, bind, get_styleSheets. simpl.
  apply adds_forEach. intros; auto with sweeps.
Qed.

(** So do all nine when every link has a string for [rel]. *)
Lemma sweeps_candidates (d : Document) :
  html_links d -> Forall2 (adds d) sweeps (candidates d).
Proof.
  intros H. apply Forall2_cons; [now apply adds_sweep_links |].
  apply later_sweeps_candidates.
Qed.

(** ** The array under [addResource] *)

Lemma some_url_In (u : jsval) (rs : list Resource) :
  some_url u rs = true <-> In u (map url rs).
Proof.
  unfold some_url. rewrite existsb_exists, in_map_iff. split.
  - intros (r & Hr & E). apply strict_eq_true in E. eauto.
  - intros (r & E & Hr). exists r. split; [assumption | now apply strict_eq_true].
Qed.

Lemma insert_cases (rs : list Resource) (c : Candidate) :
  (insert rs c = rs /\ (truthy (fst c) = false \/ In (fst c) (map url rs))) \/
  (insert rs c = rs ++ [mkResource (fst c) (snd c)] /\
   truthy (fst c) = true /\ ~ In (fst c) (map url rs)).
Proof.
  unfold insert. destruct (truthy (fst c)) eqn:T; simpl.
  - destruct (some_url (fst c) rs) eqn:S.
    + left. split; [reflexivity | right; now apply some_url_In].
    + right. repeat split. rewrite <- some_url_In. congruence.
  - left. auto.
Qed.

Lemma insert_extends (cs : list Candidate) (rs : list Resource) :
  exists tail, fold_left insert cs rs = rs ++ tail.
Proof.
  revert rs. induction cs as [|c cs IH]; intros rs; simpl.
  - exists []. now rewrite app_nil_r.
  - destruct (IH (insert rs c)) as [tail ->].
    destruct (insert_cases rs c) as [[-> _] | [-> _]].
    + now exists tail.
    + rewrite <- app_assoc. now eexists.
Qed.

Lemma insert_NoDup (cs : list Candidate) (rs : list Resource) :
  NoDup (map url rs) -> NoDup (map url (fold_left insert cs rs)).
Proof.
  revert rs. induction cs as [|c cs IH]; intros rs N; simpl; [assumption |].
  apply IH. destruct (insert_cases rs c) as [[-> _] | [-> [_ F]]]; [assumption |].
  rewrite map_app. simpl. apply NoDup_app; [assumption | |].
  - constructor; [intros [] | constructor].
  - intros a Ha [<- | []]. contradiction.
Qed.

Lemma first_type_app (u : jsval) (a b : list Candidate) :
  first_type u (a ++ b) =
  match first_type u a with
  | Some t => Some t
  | None => first_type u b
  end.
Proof.
  induction a as [|c a IH]; simpl; [reflexivity |].
  now destruct (strict_eq (fst c) u).
Qed.

Lemma first_type_none (u : jsval) (cs : list Candidate) :
  first_type u cs = None <-> ~ In u (map fst cs).
Proof.
  induction cs as [|c cs IH]; simpl.
  - tauto.
  - destruct (strict_eq (fst c) u) eqn:E.
    + apply strict_eq_true in E. split; [discriminate | tauto].
    + rewrite IH. split.
      * intros H [F | F]; [| tauto]. rewrite F, strict_eq_refl in E. discriminate.
      * tauto.
Qed.

Lemma first_type_In (u : jsval) (t : string) (cs : list Candidate) :
  first_type u cs = Some t -> In (u, t) cs.
Proof.
  induction cs as [|[u' t'] cs IH]; simpl; [discriminate |].
  destruct (strict_eq u' u) eqn:E.
  - apply strict_eq_true in E. intros [= ->]. left. now subst.
  - auto.
Qed.

(** A record is in the array exactly when it was there, or when its address
    is new and truthy and its type is that of the first candidate for it. *)
Lemma In_fold_insert (cs : list Candidate) (rs : list Resource) (r : Resource) :
  In r (fold_left insert cs rs) <->
  In r rs \/
  (~ In (url r) (map url rs) /\ truthy (url r) = true /\
   first_type (url r) cs = Some (type r)).
Proof.
  revert rs. induction cs as [|c cs IH]; intros rs; simpl.
  - split; [auto | intros [H | (_ & _ & H)]; [assumption | discriminate]].
  - rewrite IH. destruct (insert_cases rs c) as [[-> W] | [-> [T F]]].
    + destruct (strict_eq (fst c) (url r)) eqn:E; [| reflexivity].
      apply strict_eq_true in E. rewrite <- E.
      split; (intros [H | (N & T & H)]; [now left |]);
        destruct W as [W | W]; congruence || contradiction.
    + rewrite map_app, in_app_iff. simpl.
      destruct (strict_eq (fst c) (url r)) eqn:E.
      * apply strict_eq_true in E. split.
        -- intros [[H | [H | []]] | (N & _)].
           ++ now left.
           ++ right. subst r. simpl in *. auto.
           ++ exfalso. apply N. rewrite in_app_iff. right. now left.
        -- intros [H | (N & _ & [= H])]; [now left; left |].
           left. right. left. destruct r; simpl in *. congruence.
      * assert (fst c <> url r) as D
          by (intros H; rewrite H, strict_eq_refl in E; discriminate).
        split.
        -- intros [[H | [H | []]] | (N & T' & H)].
           ++ now left.
           ++ subst r. simpl in D. congruence.
           ++ right. rewrite in_app_iff in N. simpl in N. tauto.
        -- intros [H | (N & T' & H)]; [now left; left |].
           right. rewrite in_app_iff. simpl. tauto.
Qed.

Lemma In_inventory (cs : list Candidate) (r : Resource) :
  In r (inventory cs) <->
  truthy (url r) = true /\ first_type (url r) cs = Some (type r).
Proof.
  unfold inventory. rewrite In_fold_insert. simpl. tauto.
Qed.

Lemma inventory_url (cs : list Candidate) (u : jsval) :
  In u (map url (inventory cs)) <-> truthy u = true /\ In u (map fst cs).
Proof.
  rewrite in_map_iff. split.
  - intros (r & <- & H). apply In_inventory in H. destruct H as [T H].
    split; [assumption |]. apply first_type_In in H.
    apply in_map_iff. now exists (url r, type r).
  - intros [T H]. destruct (first_type u cs) as [t|] eqn:E.
    + exists (mkResource u t). split; [reflexivity |]. now apply In_inventory.
    + apply first_type_none in E. contradiction.
Qed.

Lemma inventory_NoDup (cs : list Candidate) : NoDup (map url (inventory cs)).
Proof. apply insert_NoDup. constructor. Qed.

(** ** What a call of the scanner does *)

(** When every link has a string for [rel], the call leaves the document
    as it was and returns the array built from the candidates of the nine
    sweeps. *)
Lemma getAllPageResources_run (s : Store) :
  html_links (document s) ->
  getAllPageResources s =
  (Normal (inventory (List.concat (candidates (document s)))),
   mkStore (document s) (inventory (List.concat (candidates (document s))))).
Proof.
  destruct s as [d rs0]. simpl. intros L.
  pose proof (sweeps_candidates d L) as H. unfold sweeps, candidates in H.
  repeat match goal with
         | H : Forall2 _ (_ :: _) _ |- _ => inversion H; subst; clear H
         end.
  unfold getAllPageResources, bind, set_resources, get_resources.
  cbv beta iota.
  repeat match goal with
         | H : adds _ ?m _ |- context [?m (mkStore _ _)] =>
             rewrite (H _); clear H; cbv beta iota
         end.
  unfold inventory, candidates. simpl List.concat.
  rewrite !fold_left_app. reflexivity.
Qed.

(** Otherwise the call throws a [TypeError] in the link loop, the document
    still as it was. *)
Lemma getAllPageResources_throws (s : Store) :
  ~ html_links (document s) ->
  exists cs,
    getAllPageResources s = (Throw TypeError, mkStore (document s) (inventory cs)).
Proof.
  destruct s as [d rs0]. simpl. intros L.
  destruct (sweep_links_cases d []) as [[H _] | [_ (cs & E)]]; [contradiction |].
  exists cs. unfold getAllPageResources, bind, set_resources. cbv beta iota.
  cbn [document]. rewrite E. reflexivity.
Qed.

(** The body of the function is the nine sweeps of [sweeps], in this
    order, between the fresh array and its return. *)
Lemma getAllPageResources_sweeps (s : Store) :
  getAllPageResources s =
  (set_resources [] ;; forEach sweeps (fun sweep => sweep) ;; get_resources)%script s.
Proof.
  unfold getAllPageResources, sweeps, forEach, bind, set_resources, ret.
  cbv beta iota.
  repeat match goal with
         | |- context [match ?m ?st with _ => _ end] =>
             destruct (m st) as [[[]|?] ?]; try reflexivity
         end.
Qed.

Lemma scan_inventory (d : Document) :
  html_links d -> scan d = Normal (inventory (List.concat (candidates d))).
Proof. intros H. unfold scan. now rewrite getAllPageResources_run. Qed.

Lemma scan_throws (d : Document) : ~ html_links d -> scan d = Throw TypeError.
Proof.
  intros H. unfold scan.
  destruct (getAllPageResources_throws (mkStore d []) H) as [cs ->]. reflexivity.
Qed.

Lemma scan_normal (d : Document) (rs : list Resource) :
  scan d = Normal rs ->
  html_links d /\ rs = inventory (List.concat (candidates d)).
Proof.
  intros E. destruct (html_links_dec d) as [H | H].
  - split; [assumption |]. rewrite (scan_inventory d H) in E. congruence.
  - rewrite (scan_throws d H) in E. discriminate.
Qed.

Lemma alone_inventory (d : Document) (sweep : Script unit) (cs : list Candidate) :
  adds d sweep cs -> alone sweep d = inventory cs.
Proof. intros H. unfold alone. now rewrite H. Qed.

Lemma addResource_run (u : jsval) (t : string) (s : Store) :
  addResource u t s = (Normal tt, mkStore (document s) (insert (resources s) (u, t))).
Proof. destruct s as [d rs]. apply (adds_addResource d u t rs). Qed.

Lemma addResource_skip (u : jsval) (t : string) (s : Store) :
  truthy u = false \/ In u (map url (resources s)) -> addResource u t s = (Normal tt, s).
Proof.
  intros H. rewrite addResource_run. destruct s as [d rs]. simpl in *.
  destruct (insert_cases rs (u, t)) as [[-> _] | (_ & T & F)]; [reflexivity |].
  simpl in *. destruct H; congruence || contradiction.
Qed.

(** ** The claims about the scanner *)

(** C1: the array [scan()] returns holds no two records with the same
    [url] (strings compared by their code units, objects by identity, as
    [===] does), and so does the local array at the end of every call, thrown
    or not; the call returns when every link has a string for [rel].
    [addResource] leaves the array as it is when a record with the
    candidate's url is already there, and otherwise can only append: the
    records already there are never changed. *)
Theorem scan_urls_unique :
  (forall d rs, scan d = Normal rs -> NoDup (map url rs)) /\
  (forall s, NoDup (map url (resources (snd (getAllPageResources s))))) /\
  (forall d, html_links d -> exists rs, scan d = Normal rs) /\
  (forall u t s, In u (map url (resources s)) -> addResource u t s = (Normal tt, s)) /\
  (forall u t s, exists s',
      addResource u t s = (Normal tt, s') /\
      (resources s' = resources s \/ resources s' = resources s ++ [mkResource u t])).
Proof.
  split; [| split; [| split; [| split]]].
  - intros d rs E. apply scan_normal in E. destruct E as [_ ->]. apply inventory_NoDup.
  - intros s. destruct (html_links_dec (document s)) as [H | H].
    + rewrite (getAllPageResources_run s H). apply inventory_NoDup.
    + destruct (getAllPageResources_throws s H) as [cs ->]. apply inventory_NoDup.
  - intros d H. eexists. now apply scan_inventory.
  - intros u t s H. apply addResource_skip. now right.
  - intros u t s. eexists. split; [apply addResource_run |]. simpl.
    destruct (insert_cases (resources s) (u, t)) as [[-> _] | [-> _]]; auto.
Qed.

(** A page with the same address behind a link and an image, and a second
    [addResource] for an address already recorded. *)
Lemma scan_urls_unique_witness :
  NoDup (map url [mkResource (JString "https://example.com/a.css") "css"]) /\
  NoDup (map url [mkResource (JObject 1) "image"; mkResource (JObject 2) "image"]) /\
  addResource (JString "a.css") "image"
    (mkStore Samples.bare [mkResource (JString "a.css") "css"]) =
  (Normal tt, mkStore Samples.bare [mkResource (JString "a.css") "css"]).
Proof.
  destruct scan_urls_unique as (H1 & _ & _ & H2 & _). split; [| split].
  - apply (H1 Samples.collision). reflexivity.
  - apply (H1 Samples.svg_images). reflexivity.
  - apply H2. simpl. left. reflexivity.
Defined.

(** C7: a call of [getAllPageResources] leaves the document as it found it,
    and a second call on the page the first one left returns the same
    array, record for record and in the same order. *)
Theorem scan_twice (s : Store) :
  let first := getAllPageResources s in
  let second := getAllPageResources (snd first) in
  document (snd first) = document s /\
  document (snd second) = document s /\
  fst second = fst first /\
  fst first = scan (document s).
Proof.
  simpl. destruct (html_links_dec (document s)) as [H | H].
  - rewrite (getAllPageResources_run s H). simpl.
    rewrite getAllPageResources_run by exact H. simpl.
    rewrite scan_inventory by exact H. auto.
  - destruct (getAllPageResources_throws s H) as [cs E]. rewrite E. simpl.
    destruct (getAllPageResources_throws (mkStore (document s) (inventory cs)) H)
      as [cs' E'].
    rewrite E'. simpl. rewrite scan_throws by exact H. auto.
Qed.




Lemma html_links_root (root : Node) (sheets sheets' : list CSSStyleSheet) :
  html_links (mkDocument root sheets) -> html_links (mkDocument root sheets').
Proof. intros H. exact H. Qed.

Lemma scan_no_sheets (d : Document) :
  html_links d -> scan (mkDocument (documentElement d) []) = Normal (before_fonts d).
Proof.
  intros H. rewrite scan_inventory by exact H.
  unfold before_fonts, inventory, candidates. simpl.
  rewrite !fold_left_app. reflexivity.
Qed.

Lemma scan_fonts_last (d : Document) :
  html_links d ->
  scan d =
  Normal (fold_left insert (flat_map sheet_candidates (styleSheets d)) (before_fonts d)).
Proof.
  intros H. rewrite scan_inventory by exact H.
  unfold before_fonts, inventory, candidates. simpl.
  rewrite !fold_left_app. reflexivity.
Qed.

(** The outcome of a scan depends on the sheets through their candidates
    only. *)
Lemma scan_same_fonts (root : Node) (sheets sheets' : list CSSStyleSheet) :
  flat_map sheet_candidates sheets = flat_map sheet_candidates sheets' ->
  scan (mkDocument root sheets) = scan (mkDocument root sheets').
Proof.
  intros E. destruct (html_links_dec (mkDocument root sheets)) as [H | H].
  - rewrite (scan_fonts_last _ H), (scan_fonts_last _ (html_links_root _ _ sheets' H)).
    simpl styleSheets. rewrite E. reflexivity.
  - rewrite (scan_throws _ H). symmetry. apply scan_throws.
    intros H'. apply H. exact H'.
Qed.

Lemma adds_sweep_fonts (d : Document) :
  adds d sweep_fonts (flat_map sheet_candidates (styleSheets d)).
Proof.
  intros rs. unfold sweep_fonts, bind, get_styleSheets. simpl.
  apply adds_forEach. intros. apply adds_for_sheet.
Qed.

Lemma sheet_candidates_font (sheet : CSSStyleSheet) (c : Candidate) :
  In c (sheet_candidates sheet) -> snd c = "font".
Proof.
  unfold sheet_candidates. destruct (crossOrigin sheet); [intros [] |].
  rewrite in_flat_map. intros ([style_src|] & _ & H); simpl in H; [| destruct H].
  destruct (group1 _); [| destruct H]. now destruct H as [<- | []].
Qed.

Lemma denied_candidates (sheets : list CSSStyleSheet) :
  flat_map sheet_candidates (filter (fun sheet => negb (crossOrigin sheet)) sheets) =
  flat_map sheet_candidates sheets.
Proof.
  induction sheets as [|sheet sheets IH]; simpl; [reflexivity |].
  unfold sheet_candidates at 2. destruct (crossOrigin sheet) eqn:E; simpl.
  - assumption.
  - rewrite IH. unfold sheet_candidates at 1. now rewrite E.
Qed.

Lemma fold_insert_added (cs : list Candidate) (rs : list Resource) :
  exists added,
    fold_left insert cs rs = rs ++ added /\
    forall r, In r added -> In (url r, type r) cs.
Proof.
  revert rs. induction cs as [|c cs IH]; intros rs; simpl.
  - exists []. rewrite app_nil_r. split; [reflexivity | intros r []].
  - destruct (IH (insert rs c)) as (added & -> & A).
    destruct (insert_cases rs c) as [[-> _] | [-> _]].
    + exists added. split; [reflexivity | auto].
    + exists (mkResource (fst c) (snd c) :: added). rewrite <- app_assoc.
      split; [reflexivity |]. intros r [<- | H]; [left; now destruct c | auto].
Qed.




(** ** The order of the sweeps *)

Lemma Forall2_nth_error {A B} (R : A -> B -> Prop) (l : list A) (l' : list B) :
  Forall2 R l l' ->
  forall i,
    (forall a, nth_error l i = Some a -> exists b, nth_error l' i = Some b /\ R a b) /\
    (forall b, nth_error l' i = Some b -> exists a, nth_error l i = Some a /\ R a b).
Proof.
  induction 1 as [|a b l l' Hab _ IH]; intros [|i]; simpl; split; try discriminate.
  - intros ? [= <-]. eauto.
  - intros ? [= <-]. eauto.
  - apply IH.
  - apply IH.
Qed.

Lemma first_type_concat (u : jsval) (css : list (list Candidate)) :
  forall i cs t,
    nth_error css i = Some cs ->
    (forall j cs', j < i -> nth_error css j = Some cs' -> first_type u cs' = None) ->
    first_type u cs = Some t ->
    first_type u (List.concat css) = Some t.
Proof.
  induction css as [|c0 css IH]; intros [|i] cs t Hn He Hf; simpl in *; try discriminate.
  - injection Hn as ->. now rewrite first_type_app, Hf.
  - rewrite first_type_app, (He 0 c0) by (reflexivity || lia).
    apply (IH i cs t Hn); [| assumption].
    intros j cs' Hj Hn'. apply (He (S j) cs'); [lia | assumption].
Qed.

Lemma first_type_some (u : jsval) (cs : list Candidate) :
  In u (map fst cs) -> exists t, first_type u cs = Some t.
Proof.
  intros H. destruct (first_type u cs) as [t|] eqn:E; [eauto |].
  apply first_type_none in E. contradiction.
Qed.

Lemma first_type_all (u : jsval) (t : string) (cs : list Candidate) :
  (forall c, In c cs -> snd c = t) -> In u (map fst cs) -> first_type u cs = Some t.
Proof.
  intros A H. destruct (first_type_some u cs H) as [t' E]. rewrite E.
  apply first_type_In, A in E. simpl in E. congruence.
Qed.

Lemma In_select (sel : Selector) (d : Document) (e : Element) :
  In e (select sel d) <->
  exists ancestors,
    In (ancestors, e) (descend [] (documentElement d)) /\ matches sel ancestors e = true.
Proof.
  unfold select. rewrite in_map_iff. split.
  - intros ([anc e'] & <- & H). apply filter_In in H. now exists anc.
  - intros (anc & H & M). exists (anc, e). split; [reflexivity |].
    apply filter_In. auto.
Qed.



(** C10: an address that is the [src] of a [source] element carrying the
    attribute, wherever the element stands, and that is neither the [href]
    of a link nor the [src] of a script, is recorded with the type [image]
    in the array [scan()] returns: the selector of the image sweep matches
    the element, and the video and audio sweeps run later. The call returns
    when every link has a string for [rel]. *)
Theorem source_recorded_as_image (d : Document) (e : Element) (u : string) :
  In e (select sel_all d) ->
  localName e = "source" ->
  In "src" (attributeNames e) ->
  src e = JString u ->
  u <> "" ->
  (forall link, In link (select sel_links d) -> href link <> JString u) ->
  (forall script, In script (select sel_scripts d) -> src script <> JString u) ->
  In e (select sel_images d) /\
  (html_links d -> exists rs, scan d = Normal rs) /\
  forall rs,
    scan d = Normal rs ->
    In (mkResource (JString u) "image") rs /\
    forall r, In r rs -> url r = JString u ->
              type r = "image" /\ type r <> "video" /\ type r <> "audio".
Proof.
  intros He Hname Hattr Hsrc Hu Hlinks Hscripts.
  assert (In e (select sel_images d)) as Himg.
  { apply In_select in He. destruct He as (anc & Hin & _).
    apply In_select. exists anc. split; [assumption |].
    assert (matches_compound (tag_with "source" "src") e = true) as M.
    { unfold matches_compound, tag_with. cbn [sel_name sel_attr]. rewrite Hname.
      apply andb_true_intro. split; [reflexivity |].
      apply existsb_exists. exists "src". split; [assumption | reflexivity]. }
    unfold matches, sel_images. cbn [existsb matches_complex]. rewrite M.
    apply orb_true_r. }
  split; [assumption |].
  split; [intros L; eexists; now apply scan_inventory |].
  intros rs Hs. apply scan_normal in Hs. destruct Hs as [L ->].
  assert (truthy (JString u) = true) as T by now apply truthy_string.
  assert (first_type (JString u) (List.concat (candidates d)) = Some "image") as F.
  { apply (first_type_concat _ _ 2 (flat_map img_candidates (select sel_images d)));
      [reflexivity | |].
    - intros j cs' Hj Hn. apply first_type_none. rewrite in_map_iff.
      intros ([u' t'] & E & Hin). simpl in E. subst u'.
      destruct j as [|[|j]]; [| | lia]; injection Hn as <-;
        apply in_flat_map in Hin; destruct Hin as (x & Hx & Hin).
      + unfold link_candidates in Hin. destruct (link_type x); [| destruct Hin].
        destruct Hin as [[= E _] | []]. now apply (Hlinks x).
      + destruct Hin as [[= E _] | []]. now apply (Hscripts x).
    - apply first_type_all.
      + intros c Hc. apply in_flat_map in Hc. now destruct Hc as (x & _ & [<- | []]).
      + apply in_map_iff. exists (JString u, "image"). split; [reflexivity |].
        apply in_flat_map. exists e. split; [assumption |]. left.
        unfold or_else. now rewrite Hsrc, T. }
  split; [now apply In_inventory |].
  intros [u' t'] Hr E. simpl in E. subst u'.
  apply In_inventory in Hr. cbn [url type] in Hr. destruct Hr as [_ Hr].
  rewrite F in Hr. injection Hr as <-. simpl.
  repeat split; discriminate.
Qed.

(** The song behind the [source] child of the audio element. *)
Lemma source_recorded_as_image_witness :
  In (mkResource (JString "https://example.com/song.ogg") "image")
     [mkResource (JString "https://example.com/clip.mp4") "image";
      mkResource (JString "https://example.com/song.ogg") "image"] /\
  exists rs, scan Samples.media = Normal rs.
Proof.
  destruct (source_recorded_as_image Samples.media
              (Samples.source "https://example.com/song.ogg")
              "https://example.com/song.ogg") as (_ & R & H).
  - simpl. tauto.
  - reflexivity.
  - left. reflexivity.
  - reflexivity.
  - discriminate.
  - intros link [].
  - intros script [].
  - split.
    + apply (H _ eq_refl).
    + apply R. intros link [].
Defined.

(** ** The types of the records *)

Lemma candidate_type (d : Document) (c : Candidate) :
  In c (List.concat (candidates d)) ->
  In (snd c) written_types \/
  exists link r,
    In link (select sel_links d) /\ href link = fst c /\ rel link = JString r /\
    includes r "stylesheet" = false /\ r <> "" /\ snd c = r.
Proof.
  intros H. apply in_concat in H. destruct H as (cs & Hcs & Hc).
  unfold candidates in Hcs. simpl in Hcs.
  repeat (destruct Hcs as [<- | Hcs]); [.. | destruct Hcs];
    apply in_flat_map in Hc; destruct Hc as (x & Hx & Hc).
  - unfold link_candidates in Hc.
    destruct (link_type_cases_rel x) as [(r & E & T) | (_ & T)]; rewrite T in Hc;
      [| destruct Hc].
    destruct Hc as [<- | []]. simpl. unfold link_type_of.
    destruct (includes r "stylesheet") eqn:I; [left; simpl; tauto |].
    destruct (truthy (JString r)) eqn:Tr; [| left; simpl; tauto].
    right. exists x, r. apply truthy_string in Tr. auto 10.
  - destruct Hc as [<- | []]. left. simpl. tauto.
  - destruct Hc as [<- | []]. left. simpl. tauto.
  - left. unfold video_candidates in Hc. apply in_app_or in Hc.
    destruct (truthy (src x)), (truthy (poster x)), Hc as [Hc | Hc];
      try destruct Hc as [<- | []]; try destruct Hc; simpl; tauto.
  - destruct Hc as [<- | []]. left. simpl. tauto.
  - left. unfold element_candidates in Hc.
    destruct (group1 _); [destruct Hc as [<- | []] | destruct Hc]. simpl. tauto.
  - destruct Hc as [<- | []]. left. simpl. tauto.
  - destruct Hc as [<- | []]. left. simpl. tauto.
  - left. apply sheet_candidates_font in Hc. rewrite Hc. simpl. tauto.
Qed.

(** C4, as amended: the type of every record of an array [scan()] returns
    is one of css, js, image, video, video_poster, audio,
    css_background_image, embedded_content, object_data, font and link, or
    else it is the raw relation of a link element with the record's address
    whose relation is not empty and does not contain stylesheet; the call
    returns when every link has a string for [rel]; and the record pushed
    for a link whose relation contains stylesheet has the type css. *)
Theorem types_as_written :
  (forall d rs,
      scan d = Normal rs ->
      forall r, In r rs ->
        In (type r) written_types \/
        exists link rl,
          In link (select sel_links d) /\ href link = url r /\
          rel link = JString rl /\
          includes rl "stylesheet" = false /\ rl <> "" /\
          type r = rl) /\
  (forall d, html_links d -> exists rs, scan d = Normal rs) /\
  (forall link rl s,
      rel link = JString rl ->
      includes rl "stylesheet" = true ->
      truthy (href link) = true ->
      ~ In (href link) (map url (resources s)) ->
      for_link link s =
      (Normal tt, mkStore (document s) (resources s ++ [mkResource (href link) "css"]))).
Proof.
  split; [| split].
  - intros d rs E r H. apply scan_normal in E. destruct E as [_ ->].
    apply In_inventory in H. destruct H as [_ H].
    apply first_type_In in H. apply (candidate_type d) in H. exact H.
  - intros d H. eexists. now apply scan_inventory.
  - intros link rl s E I T N. unfold for_link, bind, lift, link_type. rewrite E.
    rewrite addResource_run. f_equal. f_equal.
    unfold link_type_of. rewrite I.
    destruct (insert_cases (resources s) (href link, "css")) as [[_ [W | W]] | [-> _]];
      cbn [fst snd] in *; [congruence | contradiction | reflexivity].
Qed.

(** The style sheet link of the sample page gets the type css. *)
Lemma types_as_written_witness :
  for_link (Samples.link "stylesheet" "https://example.com/a.css") (mkStore Samples.bare []) =
  (Normal tt, mkStore Samples.bare [mkResource (JString "https://example.com/a.css") "css"]).
Proof.
  apply (proj2 (proj2 types_as_written)
           (Samples.link "stylesheet" "https://example.com/a.css") "stylesheet"
           (mkStore Samples.bare [])).
  - reflexivity.
  - reflexivity.
  - reflexivity.
  - intros [].
Defined.

(** C4, as described, fails on a page with one style sheet link: its record
    has the type css, which is neither a described kind nor the relation of
    the link, and is not stylesheet. *)
Lemma kinds_as_described_counterexample : ~ kinds_as_described Samples.collision.
Proof.
  intros H. destruct (H _ scan_collision) as [H1 _].
  destruct (H1 _ (or_introl eq_refl)) as [K | (link & L & _ & R)].
  - simpl in K. repeat (destruct K as [K | K]; [discriminate |]). destruct K.
  - simpl in L. destruct L as [<- | []]. discriminate.
Qed.

(** ** The pattern takes the first [url(...)] that closes *)

Lemma append_empty_r (s : string) : (s ++ "")%string = s.
Proof. induction s as [|c s IH]; simpl; [reflexivity | now rewrite IH]. Qed.

Lemma append_assoc' (a b c : string) : ((a ++ b) ++ c)%string = (a ++ (b ++ c))%string.
Proof. induction a as [|x a IH]; simpl; [reflexivity | now rewrite IH]. Qed.

Lemma lazy_group_step (acc : string) (c : ascii) (s : string) :
  lazy_group acc (String c s) =
  if closes (String c s) then Some acc
  else if is_line_terminator c then None
       else lazy_group (acc ++ String c "") s.
Proof. reflexivity. Qed.

Lemma match_here_open (s g : string) :
  match_here s = Some g -> String.prefix "url(" s = true.
Proof.
  destruct s as [|c1 s]; [discriminate |].
  destruct c1 as [[] [] [] [] [] [] [] []]; try discriminate.
  destruct s as [|c2 s]; [discriminate |].
  destruct c2 as [[] [] [] [] [] [] [] []]; try discriminate.
  destruct s as [|c3 s]; [discriminate |].
  destruct c3 as [[] [] [] [] [] [] [] []]; try discriminate.
  destruct s as [|c4 s]; [discriminate |].
  destruct c4 as [[] [] [] [] [] [] [] []]; try discriminate.
  now destruct s.
Qed.

Lemma prefix_cons (a b : ascii) (s t : string) :
  String.prefix (String a s) (String b t) = true -> a = b /\ String.prefix s t = true.
Proof. simpl. destruct (ascii_dec a b); [auto | discriminate]. Qed.

(** An occurrence of [url(] that starts before the end of [q] lies in
    [q]. *)
Lemma prefix_open_inside (q rest : string) :
  q <> "" ->
  String.prefix "url(" (q ++ "url(" ++ rest) = true ->
  String.prefix "url(" q = true.
Proof.
  intros N H.
  destruct q as [|c1 q]; [congruence |]. simpl in H.
  apply prefix_cons in H. destruct H as [<- H].
  destruct q as [|c2 q]; [discriminate |]. simpl in H.
  apply prefix_cons in H. destruct H as [<- H].
  destruct q as [|c3 q]; [discriminate |]. simpl in H.
  apply prefix_cons in H. destruct H as [<- H].
  destruct q as [|c4 q]; [discriminate |]. simpl in H.
  apply prefix_cons in H. destruct H as [<- H].
  now destruct q.
Qed.

Lemma includes_step (c : ascii) (s t : string) :
  includes (String c s) t = if String.prefix t (String c s) then true else includes s t.
Proof. reflexivity. Qed.

Lemma match_url_skip (pre rest : string) :
  includes pre "url(" = false ->
  match_url (pre ++ "url(" ++ rest) = match_url ("url(" ++ rest).
Proof.
  induction pre as [|c pre IH]; intros I; [reflexivity |].
  assert (String.prefix "url(" (String c pre) = false /\ includes pre "url(" = false)
    as [P I'].
  { rewrite includes_step in I.
    destruct (String.prefix "url(" (String c pre)); [discriminate | auto]. }
  change (String c pre ++ "url(" ++ rest)%string with (String c (pre ++ "url(" ++ rest)).
  change (match_url (String c (pre ++ "url(" ++ rest)))
    with (match match_here (String c (pre ++ "url(" ++ rest)) with
          | Some g => Some g
          | None => match_url (pre ++ "url(" ++ rest)
          end).
  destruct (match_here (String c (pre ++ "url(" ++ rest))) as [g|] eqn:M.
  - apply match_here_open in M.
    apply (prefix_open_inside (String c pre) rest) in M; [congruence | discriminate].
  - now apply IH.
Qed.

Lemma group_char_spec (c : ascii) :
  group_char c = true -> Ascii.eqb c ")" = false /\ is_line_terminator c = false.
Proof.
  unfold group_char. rewrite negb_true_iff, orb_false_iff. tauto.
Qed.

Lemma closes_two (c c' : ascii) (s : string) :
  closes (String c (String c' s)) =
  if is_quote c then Ascii.eqb c' ")" else Ascii.eqb c ")".
Proof.
  unfold closes. destruct (is_quote c); [| reflexivity].
  destruct c' as [[] [] [] [] [] [] [] []]; reflexivity.
Qed.

Lemma strip_close_keeps (c : ascii) (body : string) :
  (is_quote c = false \/ body <> "") ->
  strip_close (String c body) = String c (strip_close body).
Proof.
  destruct body as [|c' body]; simpl.
  - intros [-> | N]; [reflexivity | congruence].
  - reflexivity.
Qed.

(** In [url(body)...] with a body that holds neither a closing parenthesis
    nor a line break, the lazy group stops at the end of the body, or one
    quote before it. *)
Lemma lazy_group_unquote (body acc rest : string) :
  all_chars group_char body = true ->
  lazy_group acc (body ++ ")" ++ rest) = Some (acc ++ strip_close body)%string.
Proof.
  revert acc. induction body as [|c body IH]; intros acc G.
  - simpl. now rewrite append_empty_r.
  - simpl in G. apply andb_true_iff in G. destruct G as [Gc G].
    apply group_char_spec in Gc. destruct Gc as [P L].
    change (String c body ++ ")" ++ rest)%string with (String c (body ++ ")" ++ rest)).
    rewrite lazy_group_step.
    destruct body as [|c' body].
    + change ("" ++ ")" ++ rest)%string with (String ")" rest).
      rewrite closes_two. destruct (is_quote c) eqn:Q.
      * simpl. now rewrite Q, append_empty_r.
      * rewrite P, L. simpl. now rewrite Q.
    + change (String c' body ++ ")" ++ rest)%string
        with (String c' (body ++ ")" ++ rest)).
      rewrite closes_two.
      assert (Ascii.eqb c' ")" = false) as P'.
      { simpl in G. apply andb_true_iff in G. destruct G as [Gc' _].
        now apply group_char_spec in Gc'. }
      assert ((if is_quote c then Ascii.eqb c' ")" else Ascii.eqb c ")") = false) as ->
        by (destruct (is_quote c); assumption).
      rewrite L.
      change (String c' (body ++ ")" ++ rest))
        with (String c' body ++ ")" ++ rest)%string.
      rewrite (IH _ G). rewrite (strip_close_keeps c (String c' body)) by (right; discriminate).
      now rewrite append_assoc'.
Qed.

Lemma after_open_unquote (body rest : string) :
  all_chars group_char body = true ->
  after_open (body ++ ")" ++ rest) = Some (unquote body).
Proof.
  intros G. destruct body as [|c body]; [reflexivity |].
  change (String c body ++ ")" ++ rest)%string with (String c (body ++ ")" ++ rest)).
  unfold after_open, unquote, strip_open. destruct (is_quote c) eqn:Q.
  - simpl in G. apply andb_true_iff in G. destruct G as [_ G].
    now rewrite (lazy_group_unquote body "" rest G).
  - change (String c (body ++ ")" ++ rest)) with (String c body ++ ")" ++ rest)%string.
    now rewrite (lazy_group_unquote (String c body) "" rest G).
Qed.




(** ** The timing collector *)

Module CollectorFacts.
Import Collector.

Lemma records_agree (e : PerformanceEntry) : initial_record e = observed_record e.
Proof. reflexivity. Qed.

Lemma push_each_map (record : PerformanceEntry -> Object) (entries : list PerformanceEntry)
    (loadedResources : list Object) :
  push_each record entries loadedResources = loadedResources ++ map record entries.
Proof.
  unfold push_each. revert loadedResources.
  induction entries as [|e entries IH]; intros l; simpl.
  - now rewrite app_nil_r.
  - now rewrite IH, <- app_assoc.
Qed.

Lemma loaded_map (initialResources : list PerformanceEntry)
    (batches : list (list PerformanceEntry)) :
  loaded initialResources batches =
  map observed_record (initialResources ++ List.concat batches).
Proof.
  unfold loaded, initialize. rewrite push_each_map. simpl.
  rewrite (map_ext _ _ records_agree), map_app.
  generalize (map observed_record initialResources) as l.
  induction batches as [|batch batches IH]; intros l; simpl.
  - now rewrite app_nil_r.
  - unfold observer at 2. rewrite push_each_map, IH, map_app, app_assoc. reflexivity.
Qed.

(** C5, as amended: the object pushed for an entry, at initialization and
    in the observer alike, has exactly the fields name, type, duration,
    size and startTime, in this order; name, duration and startTime are
    copied from the fields of the same name, type from initiatorType and
    size from transferSize; for an entry without negative number, name and
    type are strings, duration and startTime numbers that are not negative,
    and size such a number or undefined. *)
Theorem record_fields_as_written (e : PerformanceEntry) :
  well_formed e ->
  let o := observed_record e in
  initial_record e = o /\
  (forall loadedResources, observer [e] loadedResources = loadedResources ++ [o]) /\
  keys o = written_fields /\
  get o "name" = VString (name e) /\
  get o "type" = VString (initiatorType e) /\
  get o "duration" = VNumber (duration e) /\
  get o "size" = number_or_undefined (transferSize e) /\
  get o "startTime" = VNumber (startTime e) /\
  is_string (get o "name") /\ is_string (get o "type") /\
  is_nonneg_number (get o "duration") /\
  is_nonneg_number_or_absent (get o "size") /\
  is_nonneg_number (get o "startTime").
Proof.
  intros (Hd & Hs & Ht). cbv zeta.
  repeat (split; [reflexivity |]).
  split; [now eexists |]. split; [now eexists |].
  split; [eexists; split; [reflexivity | exact Hd] |].
  split; [| eexists; split; [reflexivity | exact Hs]].
  change (get (observed_record e) "size") with (number_or_undefined (transferSize e)).
  destruct (transferSize e) as [n|]; [right | now left].
  eexists. split; [reflexivity | exact Ht].
Qed.

(** The entry of a style sheet of 2048 bytes. *)
Lemma record_fields_as_written_witness :
  keys (observed_record Samples.entry) = ["name"; "type"; "duration"; "size"; "startTime"] /\
  get (observed_record Samples.entry) "type" = VString "link" /\
  get (observed_record Samples.entry) "size" = VNumber 2048%float.
Proof.
  assert (well_formed Samples.entry) as W by (repeat split).
  pose proof (record_fields_as_written Samples.entry W) as H. cbv zeta in H.
  destruct H as (_ & _ & K & _ & T & _ & S & _).
  split; [exact K |]. split; [exact T | exact S].
Defined.

(** C5, as described, fails on the object pushed for the sample entry: it
    has no field initiatorType and no field transferSize. *)
Lemma record_as_described_counterexample :
  observer [Samples.entry] [] = [observed_record Samples.entry] /\
  well_formed Samples.entry /\
  get (observed_record Samples.entry) "initiatorType" = VUndefined /\
  ~ record_as_described Samples.entry (observed_record Samples.entry).
Proof.
  split; [reflexivity |]. split; [repeat split |]. split; [reflexivity |].
  intros (K & _). discriminate K.
Qed.

(** C6: after the script has run on the buffered entries and the platform
    has made any deliveries, [window.loadedResources] holds one record per
    entry, buffered entries first and in the platform's order, then the
    delivered ones batch by batch, with nothing dropped or merged; after
    further deliveries the earlier array is a prefix of the later one, and
    its length did not shrink; an entry whose record is already the last of
    the array is recorded again. *)
Theorem loaded_append_only :
  (forall initialResources, loaded initialResources [] = map initial_record initialResources) /\
  (forall initialResources batches,
      loaded initialResources batches =
      map observed_record (initialResources ++ List.concat batches)) /\
  (forall initialResources batches,
      List.length (loaded initialResources batches) =
      List.length initialResources + List.length (List.concat batches)) /\
  (forall initialResources batches more,
      loaded initialResources (batches ++ more) =
      loaded initialResources batches ++ map observed_record (List.concat more)) /\
  (forall initialResources batches more,
      List.length (loaded initialResources batches) <=
      List.length (loaded initialResources (batches ++ more))) /\
  (forall e loadedResources,
      observer [e] (loadedResources ++ [observed_record e]) =
      loadedResources ++ [observed_record e; observed_record e]).
Proof.
  assert (forall i b m, loaded i (b ++ m) = loaded i b ++ map observed_record (List.concat m)) as P.
  { intros i b m. rewrite !loaded_map, concat_app, app_assoc, map_app. reflexivity. }
  repeat split.
  - intros i. rewrite loaded_map. simpl. rewrite app_nil_r.
    apply map_ext. intros e. symmetry. apply records_agree.
  - apply loaded_map.
  - intros i b. rewrite loaded_map, length_map, length_app. reflexivity.
  - exact P.
  - intros i b m. rewrite P, length_app. lia.
  - intros e l. unfold observer. rewrite push_each_map, <- app_assoc. reflexivity.
Qed.

(** The same entry buffered and delivered again is recorded twice. *)
Example loaded_twice :
  loaded [Samples.entry] [[Samples.opaque_entry]; [Samples.entry]] =
  [observed_record Samples.entry; observed_record Samples.opaque_entry;
   observed_record Samples.entry].
Proof. reflexivity. Qed.

End CollectorFacts.

(** * Further properties of the scanner *)

(** ** When the call returns *)

(** X16: [scan()] returns exactly when every [link[href]] element of the
    document has a string for [rel]; otherwise it ends in the [TypeError] of
    the link loop, which no [try] encloses, and it never ends in the
    [SecurityError] of a denied sheet. *)
Theorem scan_returns_iff (d : Document) :
  (html_links d <-> exists rs, scan d = Normal rs) /\
  (~ html_links d <-> scan d = Throw TypeError) /\
  scan d <> Throw SecurityError.
Proof.
  destruct (html_links_dec d) as [H | H].
  - pose proof (scan_inventory d H) as E. repeat split.
    + eauto.
    + auto.
    + intros N. contradiction.
    + intros T. congruence.
    + congruence.
  - pose proof (scan_throws d H) as E. repeat split.
    + intros L. contradiction.
    + intros [rs T]. congruence.
    + auto.
    + auto.
    + congruence.
Qed.

(** ** Where the records come from *)

Lemma candidate_origin (d : Document) (u : jsval) (t : string) :
  In (u, t) (List.concat (candidates d)) -> origin d u t.
Proof.
  intros H. apply in_concat in H. destruct H as (cs & Hcs & Hc).
  unfold candidates in Hcs. simpl in Hcs. unfold origin.
  repeat (destruct Hcs as [<- | Hcs]); [.. | destruct Hcs];
    apply in_flat_map in Hc; destruct Hc as (x & Hx & Hc).
  - unfold link_candidates in Hc. destruct (link_type x) as [t'|] eqn:T; [| destruct Hc].
    destruct Hc as [[= <- <-] | []]. left. eauto.
  - destruct Hc as [[= <- <-] | []]. right; left. eauto.
  - destruct Hc as [[= <- <-] | []]. do 2 right; left. eauto.
  - do 3 right; left. exists x. split; [assumption |].
    unfold video_candidates in Hc. apply in_app_or in Hc.
    destruct (truthy (src x)), (truthy (poster x)), Hc as [Hc | Hc];
      try destruct Hc as [[= <- <-] | []]; try destruct Hc; auto.
  - destruct Hc as [[= <- <-] | []]. do 4 right; left. eauto.
  - do 5 right; left. unfold element_candidates in Hc.
    destruct (group1 _) as [g|] eqn:G; [| destruct Hc].
    destruct Hc as [[= <- <-] | []]. apply group1_some in G.
    exists x, g. tauto.
  - destruct Hc as [[= <- <-] | []]. do 6 right; left. eauto.
  - destruct Hc as [[= <- <-] | []]. do 7 right; left. eauto.
  - do 8 right. unfold sheet_candidates in Hc.
    destruct (crossOrigin x) eqn:C; [destruct Hc |].
    destruct (ruleList x) as [rules|] eqn:R; [| destruct Hc].
    apply in_flat_map in Hc. destruct Hc as ([style_src|] & Hr & Hc); [| destruct Hc].
    simpl in Hc. destruct (group1 _) as [g|] eqn:G; [| destruct Hc].
    destruct Hc as [[= <- <-] | []]. apply group1_some in G.
    exists x, rules, style_src, g. tauto.
Qed.

Ltac pick_sweep cs :=
  exists cs; split; [simpl; tauto |]; apply in_flat_map.

Lemma origin_candidate (d : Document) (u : jsval) (t : string) :
  origin d u t -> truthy u = true -> In (u, t) (List.concat (candidates d)).
Proof.
  intros O T. apply in_concat. unfold candidates.
  destruct O as [(x & Hx & -> & LT) | [(x & Hx & -> & ->) | [(x & Hx & -> & ->) |
               [(x & Hx & O) | [(x & Hx & -> & ->) | [(x & g & Hx & M & -> & ->) |
               [(x & Hx & -> & ->) | [(x & Hx & -> & ->) |
                (x & rules & style_src & g & Hx & C & R & Hr & M & -> & ->)]]]]]]]].
  - pick_sweep (flat_map link_candidates (select sel_links d)).
    exists x. split; [assumption |]. unfold link_candidates. rewrite LT. now left.
  - pick_sweep (flat_map script_candidates (select sel_scripts d)).
    exists x. split; [assumption | now left].
  - pick_sweep (flat_map img_candidates (select sel_images d)).
    exists x. split; [assumption | now left].
  - pick_sweep (flat_map video_candidates (select sel_video d)).
    exists x. split; [assumption |]. unfold video_candidates. apply in_or_app.
    destruct O as [[-> ->] | [-> ->]]; rewrite T; [left | right]; now left.
  - pick_sweep (flat_map audio_candidates (select sel_audio d)).
    exists x. split; [assumption | now left].
  - pick_sweep (flat_map element_candidates (select sel_all d)).
    exists x. split; [assumption |]. unfold element_candidates.
    assert (group1 (match_url (backgroundImage (computedStyle x))) = Some g) as ->
      by (apply group1_some; split; [assumption | now apply truthy_string]).
    now left.
  - pick_sweep (flat_map frame_candidates (select sel_frames d)).
    exists x. split; [assumption | now left].
  - pick_sweep (flat_map obj_candidates (select sel_objects d)).
    exists x. split; [assumption | now left].
  - pick_sweep (flat_map sheet_candidates (styleSheets d)).
    exists x. split; [assumption |]. unfold sheet_candidates. rewrite C, R.
    apply in_flat_map. exists (CSSFontFaceRule style_src). split; [assumption |].
    simpl.
    assert (group1 (match_url style_src) = Some g) as ->
      by (apply group1_some; split; [assumption | now apply truthy_string]).
    now left.
Qed.

(** X1: every record of an array [scan()] returns has its address and its
    type from one of the nine loops: the scanner invents no address and
    gives no type but the one its loop writes. *)
Theorem record_origin (d : Document) (rs : list Resource) :
  scan d = Normal rs -> forall r, In r rs -> origin d (url r) (type r).
Proof.
  intros E r H. apply scan_normal in E. destruct E as [_ ->].
  apply In_inventory in H. destruct H as [_ H].
  apply first_type_In in H. now apply candidate_origin.
Qed.

(** The record of the link of the sample page comes from the link loop. *)
Lemma record_origin_witness :
  origin Samples.collision (JString "https://example.com/a.css") "css".
Proof.
  apply (record_origin Samples.collision
           [mkResource (JString "https://example.com/a.css") "css"] eq_refl
           (mkResource (JString "https://example.com/a.css") "css")).
  left. reflexivity.
Defined.

(** X2: every address that one of the nine loops reads and that is neither
    missing nor empty has a record in the array [scan()] returns. *)
Theorem address_recorded (d : Document) (rs : list Resource) :
  scan d = Normal rs ->
  forall u t, origin d u t -> truthy u = true -> In u (map url rs).
Proof.
  intros E u t O T. apply scan_normal in E. destruct E as [_ ->].
  apply inventory_url. split; [assumption |].
  apply in_map_iff. exists (u, t). split; [reflexivity | now apply origin_candidate].
Qed.

(** The object behind the second [image] element of the sample page. *)
Lemma address_recorded_witness :
  In (JObject 2) (map url [mkResource (JObject 1) "image"; mkResource (JObject 2) "image"]).
Proof.
  apply (address_recorded Samples.svg_images _ eq_refl (JObject 2) "image");
    [| reflexivity].
  do 2 right; left. exists (Samples.svg_image 2).
  split; [simpl; tauto | split; reflexivity].
Defined.

(** ** The sweeps only append, and each of them is idempotent *)

Lemma adds_sweep_list (d : Document) (l : list (Script unit)) (css : list (list Candidate)) :
  Forall2 (adds d) l css -> adds d (forEach l (fun sweep => sweep)) (List.concat css).
Proof.
  induction 1 as [|sweep cs l css H _ IH]; simpl.
  - apply adds_ret.
  - now apply adds_seq.
Qed.

Lemma Forall2_firstn {A B} (R : A -> B -> Prop) (k : nat) (l : list A) (l' : list B) :
  Forall2 R l l' -> Forall2 R (firstn k l) (firstn k l').
Proof.
  intros H. revert k. induction H as [|a b l l' Hab _ IH]; intros [|k]; simpl;
    constructor; auto.
Qed.

Lemma after_sweeps_inventory (k : nat) (d : Document) :
  html_links d ->
  after_sweeps k d = inventory (List.concat (firstn k (candidates d))).
Proof.
  intros L. unfold after_sweeps.
  now rewrite (adds_sweep_list d _ _ (Forall2_firstn _ k _ _ (sweeps_candidates d L))).
Qed.

(** When the link loop throws, no later sweep runs. *)
Lemma after_sweeps_thrown (d : Document) :
  ~ html_links d -> exists cs, forall k, after_sweeps (S k) d = inventory cs.
Proof.
  intros L. destruct (sweep_links_cases d []) as [[H _] | [_ (cs & E)]]; [contradiction |].
  exists cs. intros k. unfold after_sweeps, sweeps. cbn [firstn forEach].
  unfold bind at 1. rewrite E. reflexivity.
Qed.

Lemma fold_insert_url (cs : list Candidate) (rs : list Resource) (u : jsval) :
  In u (map url (fold_left insert cs rs)) <->
  In u (map url rs) \/ (truthy u = true /\ In u (map fst cs)).
Proof.
  split.
  - rewrite in_map_iff. intros (r & <- & H). apply In_fold_insert in H.
    destruct H as [H | (_ & T & H)].
    + left. now apply in_map.
    + right. split; [assumption |]. apply first_type_In in H.
      apply in_map_iff. now exists (url r, type r).
  - intros H. destruct (in_dec jsval_eq_dec u (map url rs)) as [I | N].
    + apply in_map_iff in I. destruct I as (r & <- & I).
      apply in_map. apply In_fold_insert. now left.
    + destruct H as [H | [T H]]; [contradiction |].
      destruct (first_type_some u cs H) as [t E].
      apply in_map_iff. exists (mkResource u t). split; [reflexivity |].
      apply In_fold_insert. right. auto.
Qed.

Lemma fold_insert_absorb (cs : list Candidate) (rs : list Resource) :
  (forall c, In c cs -> truthy (fst c) = true -> In (fst c) (map url rs)) ->
  fold_left insert cs rs = rs.
Proof.
  induction cs as [|c cs IH]; intros H; simpl; [reflexivity |].
  destruct (insert_cases rs c) as [[-> _] | (_ & T & N)].
  - apply IH. intros c' Hc'. apply H. now right.
  - exfalso. apply N, H; [now left | assumption].
Qed.

Lemma fold_insert_twice (cs : list Candidate) (rs : list Resource) :
  fold_left insert cs (fold_left insert cs rs) = fold_left insert cs rs.
Proof.
  apply fold_insert_absorb. intros c Hc T. apply fold_insert_url. right.
  split; [assumption | now apply in_map].
Qed.

(** X3: within a call, each sweep only appends to the array: the array
    after [j] sweeps is a prefix of the array after [k] sweeps when
    [j <= k], and an array returned is the array after the nine sweeps. *)
Theorem sweeps_only_append (d : Document) (j k : nat) :
  j <= k ->
  (exists rest, after_sweeps k d = after_sweeps j d ++ rest) /\
  (forall rs, scan d = Normal rs -> rs = after_sweeps 9 d).
Proof.
  intros L. split.
  - destruct (html_links_dec d) as [H | H].
    + rewrite !after_sweeps_inventory by exact H.
      rewrite <- (firstn_skipn j (firstn k (candidates d))).
      rewrite firstn_firstn, (Nat.min_l j k L), concat_app.
      unfold inventory. rewrite fold_left_app. apply insert_extends.
    + destruct (after_sweeps_thrown d H) as [cs E].
      destruct j as [|j].
      * exists (after_sweeps k d). reflexivity.
      * destruct k as [|k]; [lia |]. exists []. now rewrite !E, app_nil_r.
  - intros rs E. apply scan_normal in E. destruct E as [H ->].
    now rewrite after_sweeps_inventory by exact H.
Qed.

(** The links of the sample page come first, the image adds nothing. *)
Lemma sweeps_only_append_witness :
  (exists rest, after_sweeps 3 Samples.collision = after_sweeps 1 Samples.collision ++ rest) /\
  [mkResource (JString "https://example.com/a.css") "css"] = after_sweeps 9 Samples.collision.
Proof.
  destruct (sweeps_only_append Samples.collision 1 3) as [P R]; [lia |].
  split; [exact P | apply R; reflexivity].
Defined.

(** X4: each of the nine sweeps is idempotent: run a second time right
    after the first, on any page and any array, it changes nothing. *)
Theorem sweep_idempotent (sweep : Script unit) (s : Store) :
  In sweep sweeps -> (sweep ;; sweep)%script s = sweep s.
Proof.
  intros H. destruct s as [d rs].
  assert ((exists cs, adds d sweep cs) \/
          exists cs, sweep (mkStore d rs) = (Throw TypeError, mkStore d (fold_left insert cs rs)))
    as [[cs A] | [cs E]].
  { destruct H as [<- | H].
    - destruct (sweep_links_cases d rs) as [[L _] | [_ T]]; [left | now right].
      eexists. now apply adds_sweep_links.
    - left. apply In_nth_error in H. destruct H as [i H].
      destruct (proj1 (Forall2_nth_error _ _ _ (later_sweeps_candidates d) i) sweep H)
        as (cs & _ & A).
      eauto. }
  - unfold bind. rewrite (A rs). cbv beta iota.
    rewrite A, fold_insert_twice. reflexivity.
  - unfold bind. rewrite E. reflexivity.
Qed.

(** The image sweep twice on the page with two sources. *)
Lemma sweep_idempotent_witness :
  (sweep_images ;; sweep_images)%script (mkStore Samples.media []) =
  sweep_images (mkStore Samples.media []).
Proof.
  apply sweep_idempotent. simpl. tauto.
Defined.

(** X5: no record of an array [scan()] returns has an empty type: a link
    without relation gets the type link. *)
Theorem record_type_not_empty (d : Document) (rs : list Resource) :
  scan d = Normal rs -> forall r, In r rs -> type r <> "".
Proof.
  intros E r H. apply scan_normal in E. destruct E as [_ ->].
  apply In_inventory in H. destruct H as [_ H].
  apply first_type_In, (candidate_type d) in H. simpl in H.
  destruct H as [H | (link & rl & _ & _ & _ & _ & N & ->)]; [| assumption].
  repeat (destruct H as [<- | H]; [discriminate |]). destruct H.
Qed.

(** A link without relation. *)
Lemma record_type_not_empty_witness : "link" <> "".
Proof.
  apply (record_type_not_empty
           (mkDocument (Samples.html [Samples.leaf (Samples.link "" "https://example.com/x")] []) [])
           [mkResource (JString "https://example.com/x") "link"] eq_refl
           (mkResource (JString "https://example.com/x") "link")).
  left. reflexivity.
Defined.

(** ** What the selectors leave out *)

Lemma select_element (sel : Selector) (d : Document) (x : Element) :
  In x (select sel d) -> In x (select sel_all d).
Proof.
  rewrite !In_select. intros (anc & H & _). exists anc. split; [assumption | reflexivity].
Qed.

Lemma matches_tag_with (n a : string) (x : Element) :
  matches_compound (tag_with n a) x = true -> localName x = n /\ In a (attributeNames x).
Proof.
  unfold matches_compound, tag_with. cbn [sel_name sel_attr].
  rewrite andb_true_iff, String.eqb_eq, existsb_exists.
  intros [-> (y & Hy & E)]. apply String.eqb_eq in E. now subst y.
Qed.

Lemma select_cases (sel : Selector) (d : Document) (x : Element) :
  In x (select sel d) ->
  exists cx ancestors, In cx sel /\ matches_complex cx ancestors x = true.
Proof.
  rewrite In_select. intros (anc & _ & M). unfold matches in M.
  apply existsb_exists in M. destruct M as (cx & Hcx & M). eauto.
Qed.

Lemma select_compound (sel : Selector) (d : Document) (x : Element) :
  In x (select sel d) ->
  exists c, matches_compound c x = true /\
            (In (Single c) sel \/ exists a, In (Descendant a c) sel).
Proof.
  intros H. apply select_cases in H. destruct H as ([c | a c] & anc & Hc & M); simpl in M.
  - eauto.
  - apply andb_true_iff in M. destruct M as [M _]. eauto.
Qed.

Ltac selected H :=
  apply select_compound in H;
  let c := fresh "c" in
  let M := fresh "M" in
  let a := fresh "a" in
  destruct H as (c & M & [H | (a & H)]); simpl in H;
  repeat (destruct H as [H | H]; [try discriminate H; inversion H; subst c; clear H |]);
  try contradiction;
  try (apply matches_tag_with in M; destruct M as [? ?]).

(** X6: the [src] of a video element that carries no poster attribute is
    never recorded when nothing else in the page refers to it: the video
    selector takes a video element only through its poster attribute. *)
Theorem video_src_needs_poster (d : Document) (u : string) :
  (forall e, In e (select sel_all d) -> src e = JString u ->
             localName e = "video" /\ ~ In "poster" (attributeNames e)) ->
  (forall e, In e (select sel_all d) ->
             href e <> JString u /\ poster e <> JString u /\ data e <> JString u /\
             match_url (backgroundImage (computedStyle e)) <> Some u) ->
  (forall sheet rules style_src,
      In sheet (styleSheets d) -> ruleList sheet = Some rules ->
      In (CSSFontFaceRule style_src) rules -> match_url style_src <> Some u) ->
  forall rs, scan d = Normal rs -> ~ In (JString u) (map url rs).
Proof.
  intros H1 H2 H3 rs Hs. apply scan_normal in Hs. destruct Hs as [_ ->].
  rewrite in_map_iff. intros (r & E & H).
  apply In_inventory in H. destruct H as [_ H].
  apply first_type_In, candidate_origin in H. rewrite E in H. clear E.
  assert (forall sel x, In x (select sel d) -> JString u = src x ->
            localName x = "video" /\ ~ In "poster" (attributeNames x)) as V
    by (intros sel x Hx E; apply H1; [now apply (select_element sel) | now symmetry]).
  assert (forall sel x, In x (select sel d) ->
            JString u <> href x /\ JString u <> poster x /\ JString u <> data x /\
            match_url (backgroundImage (computedStyle x)) <> Some u) as W.
  { intros sel x Hx. destruct (H2 x (select_element sel d x Hx)) as (A & B & C & D).
    repeat split; congruence. }
  destruct H as [(x & Hx & E & _) | [(x & Hx & E & _) | [(x & Hx & E & _) |
               [(x & Hx & E) | [(x & Hx & E & _) | [(x & g & Hx & M & E & _) |
               [(x & Hx & E & _) | [(x & Hx & E & _) |
                (x & rules & style_src & g & Hx & _ & R & Hr & M & E & _)]]]]]]]].
  - destruct (W _ x Hx) as (A & B & C & D); congruence.
  - destruct (V _ x Hx E) as [N _]. selected Hx. congruence.
  - unfold or_else in E. destruct (truthy (src x)).
    + destruct (V _ x Hx E) as [N _]. selected Hx; congruence.
    + destruct (W _ x Hx) as (A & B & C & D); congruence.
  - destruct E as [[E _] | [E _]]; [| destruct (W _ x Hx) as (A & B & C & D); congruence].
    destruct (V _ x Hx E) as [N P]. selected Hx; congruence || contradiction.
  - destruct (V _ x Hx E) as [N _]. selected Hx. congruence.
  - injection E as ->. destruct (W _ x Hx) as (A & B & C & D); congruence.
  - destruct (V _ x Hx E) as [N _]. selected Hx; congruence.
  - destruct (W _ x Hx) as (A & B & C & D); congruence.
  - injection E as ->. now apply (H3 x rules style_src).
Qed.

(** The page whose only reference is the [src] of a video element. *)
Lemma video_src_needs_poster_witness :
  ~ In (JString "https://example.com/clip.mp4") (map url []).
Proof.
  apply (video_src_needs_poster Samples.bare_video).
  - intros e H E. simpl in H.
    repeat (destruct H as [<- | H]; [try discriminate E |]); [| destruct H].
    split; [reflexivity |]. simpl. intros [F | []]. discriminate F.
  - intros e H. simpl in H.
    repeat (destruct H as [<- | H]; [repeat split; discriminate |]). destruct H.
  - intros sheet rules style_src [].
  - reflexivity.
Defined.

(** * Further properties of the pattern *)

Lemma match_url_step (c : ascii) (s : string) :
  match_url (String c s) =
  match match_here (String c s) with
  | Some g => Some g
  | None => match_url s
  end.
Proof. reflexivity. Qed.

Lemma quote_not_paren (c : ascii) : is_quote c = true -> Ascii.eqb c ")" = false.
Proof.
  unfold is_quote. rewrite orb_true_iff, !Ascii.eqb_eq. now intros [-> | ->].
Qed.

Lemma closes_shape (s : string) :
  closes s = true ->
  exists cq rest, s = (cq ++ ")" ++ rest)%string /\ quote_or_nothing cq.
Proof.
  destruct s as [|c s]; simpl; [discriminate |].
  destruct (is_quote c) eqn:Q.
  - destruct s as [|c' s]; [discriminate |].
    destruct (Ascii.eqb_spec c' ")") as [-> | N].
    + intros _. exists (String c ""), s. split; [reflexivity |]. right. eauto.
    + destruct c' as [[] [] [] [] [] [] [] []]; try discriminate. congruence.
  - intros E. apply Ascii.eqb_eq in E. subst c.
    exists "", s. split; [reflexivity | now left].
Qed.

Lemma closes_false_char (c : ascii) (s : string) :
  closes (String c s) = false -> Ascii.eqb c ")" = false.
Proof.
  simpl. destruct (is_quote c) eqn:Q; [intros _; now apply quote_not_paren | auto].
Qed.

Lemma lazy_group_sound (s acc g : string) :
  lazy_group acc s = Some g ->
  exists body cq rest,
    g = (acc ++ body)%string /\ s = (body ++ cq ++ ")" ++ rest)%string /\
    quote_or_nothing cq /\ all_chars group_char body = true.
Proof.
  revert acc. induction s as [|c s IH]; intros acc; [discriminate |].
  rewrite lazy_group_step. destruct (closes (String c s)) eqn:C.
  - intros [= <-]. destruct (closes_shape _ C) as (cq & rest & E & Q).
    exists "", cq, rest. rewrite append_empty_r. auto.
  - destruct (is_line_terminator c) eqn:L; [discriminate |].
    intros H. destruct (IH _ H) as (body & cq & rest & -> & -> & Q & G).
    exists (String c body), cq, rest. rewrite append_assoc'.
    repeat split; try assumption. simpl.
    unfold group_char at 1. now rewrite (closes_false_char c _ C), L.
Qed.

Lemma after_open_sound (s g : string) :
  after_open s = Some g ->
  exists oq cq rest,
    s = (oq ++ g ++ cq ++ ")" ++ rest)%string /\
    quote_or_nothing oq /\ quote_or_nothing cq /\ all_chars group_char g = true.
Proof.
  assert (forall t, lazy_group "" t = Some g ->
            exists cq rest, t = (g ++ cq ++ ")" ++ rest)%string /\
                            quote_or_nothing cq /\ all_chars group_char g = true) as L.
  { intros t H. destruct (lazy_group_sound _ _ _ H) as (body & cq & rest & -> & -> & Q & G).
    eauto. }
  unfold after_open. destruct s as [|c s].
  - intros H. destruct (L _ H) as (cq & rest & E & Q & G).
    exists "", cq, rest. repeat split; auto. now left.
  - destruct (is_quote c) eqn:Qc.
    + destruct (lazy_group "" s) as [g'|] eqn:E.
      * intros [= ->]. destruct (L _ E) as (cq & rest & -> & Q & G).
        exists (String c ""), cq, rest. repeat split; auto. right. eauto.
      * intros H. destruct (L _ H) as (cq & rest & E' & Q & G).
        exists "", cq, rest. repeat split; auto. now left.
    + intros H. destruct (L _ H) as (cq & rest & E' & Q & G).
      exists "", cq, rest. repeat split; auto. now left.
Qed.

Lemma match_here_sound (s g : string) :
  match_here s = Some g -> exists s', s = ("url(" ++ s')%string /\ after_open s' = Some g.
Proof.
  destruct s as [|c1 s]; [discriminate |].
  destruct c1 as [[] [] [] [] [] [] [] []]; try discriminate.
  destruct s as [|c2 s]; [discriminate |].
  destruct c2 as [[] [] [] [] [] [] [] []]; try discriminate.
  destruct s as [|c3 s]; [discriminate |].
  destruct c3 as [[] [] [] [] [] [] [] []]; try discriminate.
  destruct s as [|c4 s]; [discriminate |].
  destruct c4 as [[] [] [] [] [] [] [] []]; try discriminate.
  intros H. now exists s.
Qed.

(** X7: when the pattern matches a value, the value reads: anything, then
    [url(], an optional quote, the captured group, an optional quote, the
    closing parenthesis, anything; and the group holds neither a closing
    parenthesis nor a line break. *)
Theorem match_url_sound (s g : string) :
  match_url s = Some g ->
  exists pre oq cq rest,
    s = (pre ++ "url(" ++ oq ++ g ++ cq ++ ")" ++ rest)%string /\
    quote_or_nothing oq /\ quote_or_nothing cq /\
    all_chars group_char g = true.
Proof.
  induction s as [|c s IH].
  - discriminate.
  - rewrite match_url_step. destruct (match_here (String c s)) as [g'|] eqn:M.
    + intros [= ->]. apply match_here_sound in M. destruct M as (s' & -> & A).
      apply after_open_sound in A. destruct A as (oq & cq & rest & -> & Qo & Qc & G).
      exists "", oq, cq, rest. auto.
    + intros H. destruct (IH H) as (pre & oq & cq & rest & -> & Qo & Qc & G).
      exists (String c pre), oq, cq, rest. auto.
Qed.

(** A quoted address that holds a closing parenthesis is cut at it. *)
Lemma match_url_sound_witness :
  exists pre oq cq rest,
    ("url('a)b.png')" =
     pre ++ "url(" ++ oq ++ "a" ++ cq ++ ")" ++ rest)%string /\
    quote_or_nothing oq /\ quote_or_nothing cq /\
    all_chars group_char "a" = true.
Proof.
  apply (match_url_sound "url('a)b.png')" "a"). reflexivity.
Defined.

Lemma match_url_needs_open (s : string) :
  includes s "url(" = false -> match_url s = None.
Proof.
  induction s as [|c s IH]; [reflexivity |].
  rewrite includes_step, match_url_step.
  destruct (String.prefix "url(" (String c s)) eqn:P; [discriminate |].
  intros I. destruct (match_here (String c s)) as [g|] eqn:M.
  - apply match_here_open in M. congruence.
  - now apply IH.
Qed.

(** X8: a value that does not hold [url(], such as [none] or a gradient,
    gives no match, and the callbacks of an element with such a computed
    background image and of a [@font-face] rule with such a source change
    nothing. *)
Theorem no_url_no_record (v : string) :
  includes v "url(" = false ->
  match_url v = None /\
  (forall e s, backgroundImage (computedStyle e) = v -> for_element e s = (Normal tt, s)) /\
  (forall s, for_rule (CSSFontFaceRule v) s = (Normal tt, s)).
Proof.
  intros I. pose proof (match_url_needs_open v I) as M.
  split; [assumption |]. split.
  - intros e s <-. unfold for_element, bind, getComputedStyle. simpl. now rewrite M.
  - intros s. simpl. now rewrite M.
Qed.

(** A gradient, and a local font. *)
Lemma no_url_no_record_witness :
  match_url "linear-gradient(to right, red, blue)" = None /\
  (forall s, for_rule (CSSFontFaceRule "local(Helvetica)") s = (Normal tt, s)).
Proof.
  split.
  - apply (no_url_no_record "linear-gradient(to right, red, blue)"). reflexivity.
  - apply (no_url_no_record "local(Helvetica)"). reflexivity.
Defined.

(** ** What follows a match is not read *)

Lemma closes_app (s rest : string) : closes s = true -> closes (s ++ rest) = true.
Proof.
  destruct s as [|c [|c' s]]; simpl; try discriminate; auto.
  destruct (is_quote c); [discriminate | auto].
Qed.

Lemma closes_app_cons (c : ascii) (s rest : string) :
  s <> "" -> closes (String c (s ++ rest)) = closes (String c s).
Proof. destruct s as [|c' s]; [congruence | reflexivity]. Qed.

Lemma lazy_group_empty (acc : string) : lazy_group acc "" = None.
Proof. reflexivity. Qed.

Lemma lazy_group_app (s acc g rest : string) :
  lazy_group acc s = Some g -> lazy_group acc (s ++ rest) = Some g.
Proof.
  revert acc. induction s as [|c s IH]; intros acc; [discriminate |].
  change (String c s ++ rest)%string with (String c (s ++ rest)).
  rewrite !lazy_group_step. destruct (closes (String c s)) eqn:C.
  - intros H. pose proof (closes_app (String c s) rest C) as C'.
    change (String c s ++ rest)%string with (String c (s ++ rest)) in C'.
    now rewrite C'.
  - destruct (is_line_terminator c); [discriminate |]. intros H.
    destruct s as [|c' s]; [discriminate |].
    rewrite closes_app_cons, C by discriminate. now apply IH.
Qed.

Lemma lazy_group_any_acc (s acc acc' g : string) :
  lazy_group acc s = Some g -> exists g', lazy_group acc' s = Some g'.
Proof.
  revert acc acc'. induction s as [|c s IH]; intros acc acc'; [discriminate |].
  rewrite !lazy_group_step. destruct (closes (String c s)); [eauto |].
  destruct (is_line_terminator c); [discriminate | apply IH].
Qed.

(** Giving up the opening quote never rescues a match. *)
Lemma lazy_group_after_quote (c : ascii) (s acc g : string) :
  is_quote c = true -> lazy_group acc (String c s) = Some g ->
  exists g', lazy_group "" s = Some g'.
Proof.
  intros Q. rewrite lazy_group_step. destruct (closes (String c s)) eqn:C.
  - intros _. simpl in C. rewrite Q in C. destruct s as [|c' s]; [discriminate |].
    destruct (Ascii.eqb_spec c' ")") as [-> | N].
    + now exists "".
    + destruct c' as [[] [] [] [] [] [] [] []]; try discriminate. congruence.
  - destruct (is_line_terminator c); [discriminate |]. apply lazy_group_any_acc.
Qed.

Lemma after_open_app (s g rest : string) :
  after_open s = Some g -> after_open (s ++ rest) = Some g.
Proof.
  destruct s as [|c s]; [discriminate |].
  change (String c s ++ rest)%string with (String c (s ++ rest)).
  unfold after_open. destruct (is_quote c) eqn:Q.
  - destruct (lazy_group "" s) as [g'|] eqn:E.
    + intros [= ->]. now rewrite (lazy_group_app s "" g rest E).
    + intros H. destruct (lazy_group_after_quote c s "" g Q H) as [g' E']. congruence.
  - intros H. apply (lazy_group_app (String c s) "" g rest H).
Qed.

Lemma has_paren_app (a b : string) :
  has_paren (a ++ b) = has_paren a || has_paren b.
Proof.
  induction a as [|c a IH]; simpl; [reflexivity |]. now rewrite IH, orb_assoc.
Qed.

Lemma closes_has_paren (s : string) : closes s = true -> has_paren s = true.
Proof.
  intros H. destruct (closes_shape s H) as (cq & rest & -> & _).
  rewrite !has_paren_app. simpl. now rewrite orb_true_r.
Qed.

Lemma lazy_group_has_paren (s acc g : string) :
  lazy_group acc s = Some g -> has_paren s = true.
Proof.
  revert acc. induction s as [|c s IH]; intros acc; [discriminate |].
  rewrite lazy_group_step. destruct (closes (String c s)) eqn:C.
  - intros _. now apply closes_has_paren.
  - destruct (is_line_terminator c); [discriminate |]. intros H.
    simpl. rewrite (IH _ H). apply orb_true_r.
Qed.

Lemma after_open_has_paren (s g : string) : after_open s = Some g -> has_paren s = true.
Proof.
  unfold after_open. destruct s as [|c s]; [discriminate |].
  destruct (is_quote c).
  - destruct (lazy_group "" s) as [g'|] eqn:E.
    + intros _. simpl. rewrite (lazy_group_has_paren _ _ _ E). apply orb_true_r.
    + apply lazy_group_has_paren.
  - apply lazy_group_has_paren.
Qed.

Lemma match_url_has_paren (s g : string) : match_url s = Some g -> has_paren s = true.
Proof.
  induction s as [|c s IH]; [discriminate |].
  rewrite match_url_step. destruct (match_here (String c s)) as [g'|] eqn:M.
  - intros _. apply match_here_sound in M. destruct M as (s' & -> & A).
    rewrite has_paren_app, (after_open_has_paren _ _ A). apply orb_true_r.
  - intros H. simpl. rewrite (IH H). apply orb_true_r.
Qed.

Lemma terminator_plain (c : ascii) :
  is_line_terminator c = true -> is_quote c = false /\ Ascii.eqb c ")" = false.
Proof.
  unfold is_line_terminator. rewrite orb_true_iff, !Ascii.eqb_eq.
  now intros [-> | ->].
Qed.

(** A group that fails although a closing parenthesis follows has met a
    line break first, and fails whatever is appended. *)
Lemma lazy_group_none_app (s acc rest : string) :
  lazy_group acc s = None -> has_paren s = true ->
  lazy_group acc (s ++ rest) = None.
Proof.
  revert acc. induction s as [|c s IH]; intros acc; [discriminate 2 |].
  change (String c s ++ rest)%string with (String c (s ++ rest)).
  rewrite !lazy_group_step. destruct (closes (String c s)) eqn:C; [discriminate |].
  destruct (is_line_terminator c) eqn:L.
  - intros _ _. destruct (terminator_plain c L) as [Q P].
    simpl. now rewrite Q, P.
  - intros H P. simpl in P. rewrite (closes_false_char c s C) in P. simpl in P.
    destruct s as [|c' s]; [discriminate |].
    rewrite closes_app_cons, C by discriminate. now apply IH.
Qed.

Lemma after_open_none_app (s rest : string) :
  after_open s = None -> has_paren s = true -> after_open (s ++ rest) = None.
Proof.
  destruct s as [|c s]; [discriminate 2 |].
  change (String c s ++ rest)%string with (String c (s ++ rest)).
  unfold after_open. destruct (is_quote c) eqn:Q.
  - destruct (lazy_group "" s) as [g'|] eqn:E; [discriminate |].
    intros H P.
    assert (has_paren s = true) as P'
      by (simpl in P; now rewrite (quote_not_paren c Q) in P).
    rewrite (lazy_group_none_app s "" rest E P').
    apply (lazy_group_none_app (String c s) "" rest H P).
  - intros H P. apply (lazy_group_none_app (String c s) "" rest H P).
Qed.

Lemma open_inside (s rest t : string) :
  (s ++ rest)%string = ("url(" ++ t)%string ->
  (exists t', s = ("url(" ++ t')%string) \/ has_paren s = false.
Proof.
  destruct s as [|c1 [|c2 [|c3 [|c4 s]]]]; simpl; intros E.
  - now right.
  - injection E as -> _. now right.
  - injection E as -> -> _. now right.
  - injection E as -> -> -> _. now right.
  - injection E as -> -> -> -> _. left. now exists s.
Qed.

(** X9: what follows a match is not read: when the pattern matches a value
    with the group [g], it matches every value that starts with this one
    with the same group. *)
Theorem match_url_app (s g rest : string) :
  match_url s = Some g -> match_url (s ++ rest) = Some g.
Proof.
  induction s as [|c s IH]; [discriminate |].
  change (String c s ++ rest)%string with (String c (s ++ rest)).
  rewrite !match_url_step. destruct (match_here (String c s)) as [g'|] eqn:M.
  - intros [= ->]. apply match_here_sound in M. destruct M as (s' & E & A).
    change (String c (s ++ rest)) with (String c s ++ rest)%string. rewrite E.
    change (match_here (("url(" ++ s') ++ rest)) with (after_open (s' ++ rest)).
    now rewrite (after_open_app s' g rest A).
  - intros H. destruct (match_here (String c (s ++ rest))) as [g'|] eqn:M'; [| now apply IH].
    exfalso. pose proof (match_url_has_paren s g H) as P.
    apply match_here_sound in M'. destruct M' as (t & E & A).
    change (String c (s ++ rest)) with (String c s ++ rest)%string in E.
    destruct (open_inside _ _ _ E) as [[t' E'] | N].
    + rewrite E' in M, E. change (match_here ("url(" ++ t')) with (after_open t') in M.
      injection E as <-.
      assert (has_paren t' = true) as P'.
      { injection E' as _ ->. exact P. }
      rewrite (after_open_none_app t' rest M P') in A. discriminate.
    + simpl in N. rewrite P, orb_true_r in N. discriminate.
Qed.

(** A second layer and a trailing comment after a first layer. *)
Lemma match_url_app_witness :
  match_url ("url(a.png)" ++ ", url(b.png) /* fallback */") = Some "a.png".
Proof.
  apply match_url_app. reflexivity.
Defined.

(** * Further properties of the sweeps *)

(** ** The type of a link *)

Lemma prefix_spec (t s : string) :
  String.prefix t s = true <-> exists b, s = (t ++ b)%string.
Proof.
  revert s. induction t as [|a t IH]; intros s.
  - split; [intros _; now exists s | intros _; now destruct s].
  - destruct s as [|c s]; simpl.
    + split; [discriminate | intros [b E]; discriminate E].
    + destruct (ascii_dec a c) as [-> | N].
      * rewrite IH. split; intros [b E]; exists b; congruence.
      * split; [discriminate | intros [b E]; congruence].
Qed.

Lemma includes_empty (t : string) : includes "" t = String.prefix t "".
Proof.
  change (includes "" t) with (if String.prefix t "" then true else false).
  now destruct (String.prefix t "").
Qed.

Lemma includes_spec (s t : string) :
  includes s t = true <-> exists a b, s = (a ++ t ++ b)%string.
Proof.
  induction s as [|c s IH].
  - rewrite includes_empty, prefix_spec. split.
    + intros [b E]. now exists "", b.
    + intros ([|c a] & b & E); [now exists b | discriminate E].
  - rewrite includes_step. destruct (String.prefix t (String c s)) eqn:P.
    + apply prefix_spec in P. destruct P as [b E]. split; [| reflexivity].
      intros _. now exists "", b.
    + rewrite IH. split.
      * intros (a & b & ->). now exists (String c a), b.
      * intros ([|c' a] & b & E).
        -- assert (String.prefix t (String c s) = true) as P'
             by (apply prefix_spec; now exists b).
           congruence.
        -- injection E as _ ->. now exists a, b.
Qed.

(** X10: for a link whose [rel] is a string, the type written is css
    exactly when the relation holds the word stylesheet somewhere, in this
    case and whatever surrounds it, unless the relation itself is css;
    otherwise it is the relation, or link when the relation is empty. For
    a link whose [rel] is not a string the expression throws. *)
Theorem link_type_cases (link : Element) :
  (forall r, rel link = JString r ->
     ((exists a b, r = (a ++ "stylesheet" ++ b)%string) -> link_type link = Normal "css") /\
     (~ (exists a b, r = (a ++ "stylesheet" ++ b)%string) ->
      (r <> "" -> link_type link = Normal r) /\
      (r = "" -> link_type link = Normal "link"))) /\
  ((~ exists r, rel link = JString r) -> link_type link = Throw TypeError).
Proof.
  split.
  - intros r E. unfold link_type, link_type_of. rewrite E. split.
    + intros H. apply includes_spec in H. now rewrite H.
    + intros N. destruct (includes r "stylesheet") eqn:I.
      * apply includes_spec in I. contradiction.
      * split.
        -- intros D. apply truthy_string in D. now rewrite D.
        -- intros ->. reflexivity.
  - intros N. destruct (link_type_cases_rel link) as [(r & E & _) | [_ T]]; [| exact T].
    exfalso. apply N. eauto.
Qed.

(** An alternate style sheet, an icon, a link without relation and a
    [link] element inside [svg]. *)
Lemma link_type_cases_witness :
  link_type (Samples.link "alternate stylesheet" "b.css") = Normal "css" /\
  link_type (Samples.link "icon" "favicon.ico") = Normal "icon" /\
  link_type (Samples.link "" "x") = Normal "link" /\
  link_type Samples.svg_link = Throw TypeError.
Proof.
  assert (forall r, includes r "stylesheet" = false ->
            ~ (exists a b, r = (a ++ "stylesheet" ++ b)%string)) as N
    by (intros r I H; apply includes_spec in H; congruence).
  split; [| split; [| split]].
  - apply (proj1 (proj1 (link_type_cases (Samples.link "alternate stylesheet" "b.css"))
                    "alternate stylesheet" eq_refl)).
    now exists "alternate ", "".
  - apply (proj2 (proj1 (link_type_cases (Samples.link "icon" "favicon.ico"))
                    "icon" eq_refl) (N "icon" eq_refl)).
    discriminate.
  - apply (proj2 (proj1 (link_type_cases (Samples.link "" "x")) "" eq_refl)
             (N "" eq_refl)).
    reflexivity.
  - apply (proj2 (link_type_cases Samples.svg_link)). intros [r E]. discriminate E.
Defined.

(** ** The order of the records *)

Lemma first_occurrences_snoc (l : list jsval) (x : jsval) :
  first_occurrences (l ++ [x]) =
  if in_dec jsval_eq_dec x l then first_occurrences l else first_occurrences l ++ [x].
Proof.
  unfold first_occurrences. rewrite rev_app_distr. simpl.
  destruct (in_dec jsval_eq_dec x (rev l)) as [I | N], (in_dec jsval_eq_dec x l) as [I' | N'];
    try reflexivity.
  - apply in_rev in I. contradiction.
  - apply in_rev in I'. contradiction.
Qed.

Lemma In_first_occurrences (l : list jsval) (x : jsval) :
  In x (first_occurrences l) <-> In x l.
Proof.
  unfold first_occurrences. now rewrite <- in_rev, nodup_In, <- in_rev.
Qed.

Lemma inventory_order (cs : list Candidate) :
  map url (inventory cs) = first_occurrences (filter truthy (map fst cs)).
Proof.
  induction cs as [|c cs IH] using rev_ind; [reflexivity |].
  unfold inventory in *. rewrite fold_left_app. simpl.
  rewrite map_app, filter_app. simpl.
  destruct (insert_cases (fold_left insert cs []) c) as [[-> W] | (-> & T & N)].
  - destruct (truthy (fst c)) eqn:T.
    + destruct W as [W | W]; [discriminate |].
      rewrite first_occurrences_snoc.
      destruct (in_dec _ _ _) as [I | N]; [assumption |].
      exfalso. apply N. rewrite IH in W.
      exact (proj1 (In_first_occurrences _ _) W).
    + now rewrite app_nil_r.
  - rewrite T, first_occurrences_snoc, map_app. simpl.
    destruct (in_dec _ _ _) as [I | N'].
    + exfalso. apply N. rewrite IH. exact (proj2 (In_first_occurrences _ _) I).
    + now rewrite IH.
Qed.

Lemma link_candidates_href (l : list Element) :
  Forall (fun link => exists r, rel link = JString r) l ->
  map fst (flat_map link_candidates l) = map href l.
Proof.
  induction 1 as [|link l [r E] _ IH]; [reflexivity |].
  change (flat_map link_candidates (link :: l))
    with (link_candidates link ++ flat_map link_candidates l).
  rewrite map_app. unfold link_candidates at 1. unfold link_type. rewrite E.
  cbn [map fst app]. f_equal. exact IH.
Qed.

(** X11: an array [scan()] returns starts with the addresses of the links,
    in the order of the elements in the tree, without the missing and empty
    ones, each address at the place of its first link. *)
Theorem links_in_tree_order (d : Document) (rs : list Resource) :
  scan d = Normal rs ->
  map url (alone sweep_links d) =
    first_occurrences (filter truthy (map href (select sel_links d))) /\
  exists rest, rs = alone sweep_links d ++ rest.
Proof.
  intros E. apply scan_normal in E. destruct E as [L ->].
  rewrite (alone_inventory d _ _ (adds_sweep_links d L)). split.
  - rewrite inventory_order. f_equal. f_equal.
    apply link_candidates_href. now apply html_links_Forall.
  - unfold candidates, inventory. simpl List.concat.
    rewrite fold_left_app. apply insert_extends.
Qed.

(** The page with a style sheet link and an image of the same address. *)
Lemma links_in_tree_order_witness :
  map url (alone sweep_links Samples.collision) =
    first_occurrences
      (filter truthy (map href (select sel_links Samples.collision))) /\
  exists rest,
    [mkResource (JString "https://example.com/a.css") "css"] =
    alone sweep_links Samples.collision ++ rest.
Proof.
  apply links_in_tree_order. reflexivity.
Defined.

(** ** The style sheets *)

Lemma font_rules_candidates (rules : list CSSRule) :
  flat_map rule_candidates (filter is_font_face rules) = flat_map rule_candidates rules.
Proof.
  induction rules as [|[style_src|] rules IH]; simpl; [reflexivity | now rewrite IH | assumption].
Qed.

(** X12: only the [@font-face] rules of a sheet count: dropping every other
    rule of every sheet, and reading a missing rule list as an empty one,
    changes nothing in what [scan()] returns. *)
Theorem other_rules_ignored (d : Document) : scan (font_faces_only d) = scan d.
Proof.
  destruct d as [root sheets]. unfold font_faces_only. simpl.
  apply scan_same_fonts.
  induction sheets as [|sheet sheets IH]; simpl; [reflexivity |].
  rewrite IH. f_equal. unfold sheet_candidates. simpl.
  destruct (crossOrigin sheet); [reflexivity |]. apply font_rules_candidates.
Qed.

(** X13: style sheets attached after the others only add font records at
    the end of the array: the records [scan()] returns for the page without
    them stay where they are, as they are. *)
Theorem later_sheets_append (root : Node) (sheets more : list CSSStyleSheet)
    (rs : list Resource) :
  scan (mkDocument root sheets) = Normal rs ->
  exists added,
    scan (mkDocument root (sheets ++ more)) = Normal (rs ++ added) /\
    forall r, In r added -> type r = "font".
Proof.
  intros E. destruct (scan_normal _ _ E) as [L _].
  rewrite (scan_fonts_last _ L) in E. injection E as <-.
  rewrite (scan_fonts_last _ (html_links_root root sheets (sheets ++ more) L)).
  simpl styleSheets.
  change (before_fonts (mkDocument root (sheets ++ more)))
    with (before_fonts (mkDocument root sheets)).
  rewrite flat_map_app, fold_left_app.
  destruct (fold_insert_added (flat_map sheet_candidates more)
              (fold_left insert (flat_map sheet_candidates sheets)
                 (before_fonts (mkDocument root sheets)))) as (added & Q & A).
  exists added. split; [now rewrite Q |].
  intros r H. apply A, in_flat_map in H. destruct H as (sheet & _ & H).
  now apply sheet_candidates_font in H.
Qed.

(** A second, readable sheet attached to a page with a denied one. *)
Lemma later_sheets_append_witness :
  exists added,
    scan (mkDocument (Samples.html [Samples.leaf (Samples.script "https://example.com/app.js")] [])
            ([Samples.foreign_sheet] ++ [Samples.own_sheet])) =
    Normal ([mkResource (JString "https://example.com/app.js") "js"] ++ added) /\
    forall r, In r added -> type r = "font".
Proof.
  apply later_sheets_append. reflexivity.
Defined.

(** * Further properties of the collector *)

Module CollectorMore.
Import Collector.

Lemma observed_record_inj (e1 e2 : PerformanceEntry) :
  observed_record e1 = observed_record e2 -> e1 = e2.
Proof.
  destruct e1 as [n1 i1 d1 t1 s1], e2 as [n2 i2 d2 t2 s2].
  unfold observed_record. simpl. intros [= -> -> -> T ->].
  destruct t1, t2; simpl in T; try discriminate; congruence.
Qed.

Lemma cons_eq {A} (a b : A) (l l' : list A) : a :: l = b :: l' -> a = b /\ l = l'.
Proof. intros [= -> ->]. auto. Qed.

Lemma map_observed_record_inj (l1 l2 : list PerformanceEntry) :
  map observed_record l1 = map observed_record l2 -> l1 = l2.
Proof.
  revert l2. induction l1 as [|e1 l1 IH]; intros [|e2 l2]; simpl; try discriminate.
  - reflexivity.
  - intros H. apply cons_eq in H. destruct H as [E H].
    apply observed_record_inj in E. apply IH in H. congruence.
Qed.

(** X14: the array keeps everything the scripts read of the entries: two
    histories of the page that leave the same array have given the same
    entries, field for field and in the same order. *)
Theorem loaded_keeps_entries (i1 i2 : list PerformanceEntry)
    (b1 b2 : list (list PerformanceEntry)) :
  loaded i1 b1 = loaded i2 b2 -> i1 ++ List.concat b1 = i2 ++ List.concat b2.
Proof.
  rewrite !CollectorFacts.loaded_map. apply map_observed_record_inj.
Qed.

(** An entry delivered by the observer, or buffered before the script. *)
Lemma loaded_keeps_entries_witness :
  [Samples.entry] ++ List.concat [[Samples.opaque_entry]] =
  [Samples.entry; Samples.opaque_entry] ++ List.concat [].
Proof.
  apply loaded_keeps_entries. reflexivity.
Defined.

(** X15: how the platform groups the entries does not show in the array:
    a delivery of two groups at once is the two deliveries in turn, and the
    array is the same whether the entries were buffered before the script
    ran, delivered in one batch, or delivered in any batches. *)
Theorem batching_invisible :
  (forall a b loadedResources,
      observer (a ++ b) loadedResources = observer b (observer a loadedResources)) /\
  (forall initialResources batches,
      loaded initialResources batches =
      loaded initialResources [List.concat batches]) /\
  (forall initialResources batches,
      loaded initialResources batches =
      loaded (initialResources ++ List.concat batches) []).
Proof.
  split; [| split].
  - intros a b l. unfold observer.
    rewrite !CollectorFacts.push_each_map, map_app, app_assoc. reflexivity.
  - intros i bs. rewrite !CollectorFacts.loaded_map. simpl. now rewrite app_nil_r.
  - intros i bs. rewrite !CollectorFacts.loaded_map. simpl. now rewrite app_nil_r.
Qed.

End CollectorMore.
